(** * dask-match: expression nodes, rewrite rules, optimize and graph lowering

    A shallow embedding of [dask_match/core.py] and
    [dask_match/io/parquet.py].  Python values that appear as operands are
    a small inductive type; expression nodes are a kind (the class) and the
    list of operands that [_ExprMeta.__call__] stores.  Process-wide state
    (the [seen] set, the [replacement_rules] list and the
    [_defer_to_matchpy] flag) is threaded explicitly. *)

From Stdlib Require Import List String Ascii ZArith Bool Lia Arith DecimalString.
Import ListNotations.
Open Scope string_scope.
Set Warnings "-register-all".

(** ** Node kinds: the concrete classes of the two modules *)

Inductive kind : Type :=
| AsType | Apply | Filter | Projection | Index
| Add | Sub | Mul | Div | LT | LE | GT | GE | EQ | NE
| ReadCSV | from_pandas | from_graph | ReadParquet.

Definition kind_eq_dec (a b : kind) : {a = b} + {a <> b}.
Proof. decide equality. Defined.

Definition kind_eqb (a b : kind) : bool :=
  if kind_eq_dec a b then true else false.

(** ** Python values held by operands *)

Inductive value : Type :=
| VNone
| VBool (b : bool)
| VInt (z : Z)
| VStr (s : string)
| VList (l : list value)
| VTuple (l : list value)
| VDict (d : list (value * value))
| VExpr (e : expr)
with expr : Type :=
| Op (k : kind) (operands : list value).

Definition head (e : expr) : kind := let 'Op k _ := e in k.
Definition operands (e : expr) : list value := let 'Op _ l := e in l.

(** [isinstance(v, Expr)] *)
Definition is_Expr (v : value) : bool :=
  match v with VExpr _ => true | _ => false end.

(** Classes of all nodes of a tree, operands inside containers
    included. *)
Fixpoint node_kinds (v : value) : list kind :=
  match v with
  | VExpr (Op k ops) => k :: flat_map node_kinds ops
  | VList l | VTuple l => flat_map node_kinds l
  | VDict d =>
      flat_map (fun kv => node_kinds (fst kv) ++ node_kinds (snd kv))%list d
  | _ => []
  end.

(** A value that holds no node at any depth. *)
Definition node_free (v : value) : bool :=
  match node_kinds v with
  | [] => true
  | _ :: _ => false
  end.

(** [isinstance(v, numbers.Number)]: [bool] is a subclass of [int]. *)
Definition is_Number (v : value) : bool :=
  match v with VInt _ | VBool _ => true | _ => false end.

(** The integer a numeric value stands for ([True] is [1]). *)
Definition num_val (v : value) : option Z :=
  match v with
  | VInt z => Some z
  | VBool b => Some (if b then 1 else 0)%Z
  | _ => None
  end.

(** ** Python [==] on operands, in structural-match mode

    Numbers compare by value across [bool] and [int]; lists and tuples
    compare element-wise and never equal each other; dicts compare as
    finite maps; nodes compare as [Operation.__eq__] does: same class and
    pairwise equal operands. *)

Fixpoint py_eq (a b : value) {struct a} : bool :=
  match a, b with
  | VNone, VNone => true
  | (VBool _ | VInt _), (VBool _ | VInt _) =>
      match num_val a, num_val b with
      | Some x, Some y => Z.eqb x y
      | _, _ => false
      end
  | VStr s, VStr t => String.eqb s t
  | VList l, VList m | VTuple l, VTuple m =>
      (fix go (l m : list value) : bool :=
         match l, m with
         | [], [] => true
         | x :: xs, y :: ys => py_eq x y && go xs ys
         | _, _ => false
         end) l m
  | VDict d, VDict d' =>
      Nat.eqb (List.length d) (List.length d') &&
      (fix all (d : list (value * value)) : bool :=
         match d with
         | [] => true
         | (k, v) :: rest =>
             (fix any (d' : list (value * value)) : bool :=
                match d' with
                | [] => false
                | (k', v') :: rest' => (py_eq k k' && py_eq v v') || any rest'
                end) d' && all rest
         end) d
  | VExpr e, VExpr e' => expr_eq e e'
  | _, _ => false
  end
with expr_eq (e e' : expr) {struct e} : bool :=
  match e, e' with
  | Op k l, Op k' l' =>
      kind_eqb k k' &&
      (fix go (l m : list value) : bool :=
         match l, m with
         | [], [] => true
         | x :: xs, y :: ys => py_eq x y && go xs ys
         | _, _ => false
         end) l l'
  end.

(** Pairwise [==] of two operand lists of the same length. *)
Fixpoint py_eq_list (l m : list value) : bool :=
  match l, m with
  | [], [] => true
  | x :: xs, y :: ys => py_eq x y && py_eq_list xs ys
  | _, _ => false
  end.

(** Python [!=] is the negation of [==] on all values modelled here. *)
Definition py_ne (a b : value) : bool := negb (py_eq a b).

(** ** Exceptions and results *)

Inductive exn : Type :=
| KeyError (key : string)
| AssertionError
| TypeError
| ValueError
| IndexError
| AttributeError
| NotImplementedError.

Inductive result (A : Type) : Type :=
| Ok (a : A)
| Raise (e : exn).
Arguments Ok {A} a.
Arguments Raise {A} e.

Definition bind {A B} (r : result A) (f : A -> result B) : result B :=
  match r with Ok a => f a | Raise e => Raise e end.

Notation "x <- r ;; k" := (bind r (fun x => k))
  (at level 61, r at next level, right associativity).

(** ** Class tables *)

(** Subclasses of [Binop]. *)
Definition is_Binop (k : kind) : bool :=
  match k with
  | Add | Sub | Mul | Div | LT | LE | GT | GE | EQ | NE => true
  | _ => false
  end.

(** Subclasses of [Blockwise] ([Elemwise] and [Binop] derive from it). *)
Definition is_Blockwise (k : kind) : bool :=
  match k with
  | AsType | Apply | Filter | Projection | Index => true
  | _ => is_Binop k
  end.

Definition class_name (k : kind) : string :=
  match k with
  | AsType => "AsType" | Apply => "Apply" | Filter => "Filter"
  | Projection => "Projection" | Index => "Index"
  | Add => "Add" | Sub => "Sub" | Mul => "Mul" | Div => "Div"
  | LT => "LT" | LE => "LE" | GT => "GT" | GE => "GE" | EQ => "EQ" | NE => "NE"
  | ReadCSV => "ReadCSV" | from_pandas => "from_pandas"
  | from_graph => "from_graph" | ReadParquet => "ReadParquet"
  end.

(** [Binop._operator_repr]; the empty string for classes without one. *)
Definition _operator_repr (k : kind) : string :=
  match k with
  | Add => "+" | Sub => "-" | Mul => "*" | Div => "/"
  | LT => "<" | LE => "<=" | GT => ">" | GE => ">="
  | EQ => "==" | NE => "!="
  | _ => ""
  end.

Definition _parameters (k : kind) : list string :=
  match k with
  | AsType => ["frame"; "dtypes"]
  | Apply => ["frame"; "function"; "args"; "kwargs"]
  | Filter => ["frame"; "predicate"]
  | Projection => ["frame"; "columns"]
  | Index => ["frame"]
  | Add | Sub | Mul | Div | LT | LE | GT | GE | EQ | NE => ["left"; "right"]
  | ReadCSV => ["filename"; "usecols"; "header"]
  | from_pandas => ["frame"; "npartitions"]
  | from_graph => ["layer"; "_meta"; "divisions"; "_name"]
  | ReadParquet =>
      ["path"; "columns"; "filters"; "categories"; "index";
       "storage_options"; "use_nullable_dtypes"; "calculate_divisions";
       "ignore_metadata_file"; "metadata_task_size"; "split_row_groups";
       "blocksize"; "aggregate_files"; "parquet_file_extension";
       "filesystem"; "kwargs"]
  end.

Definition _defaults (k : kind) : list (string * value) :=
  match k with
  | Apply => [("args", VTuple []); ("kwargs", VDict [])]
  | ReadCSV => [("usecols", VNone); ("header", VNone)]
  | from_pandas => [("npartitions", VInt 1)]
  | ReadParquet =>
      [("columns", VNone); ("filters", VNone); ("categories", VNone);
       ("index", VNone); ("storage_options", VNone);
       ("use_nullable_dtypes", VBool false);
       ("calculate_divisions", VBool false);
       ("ignore_metadata_file", VBool false);
       ("metadata_task_size", VNone);
       ("split_row_groups", VStr "infer");
       ("blocksize", VStr "default");
       ("aggregate_files", VNone);
       ("parquet_file_extension",
         VTuple [VStr ".parq"; VStr ".parquet"; VStr ".pq"]);
       ("filesystem", VStr "fsspec");
       ("kwargs", VDict [])]
  | _ => []
  end.

(** Dictionary helpers over string keys (keyword arguments, defaults). *)
Fixpoint lookup {A} (key : string) (d : list (string * A)) : option A :=
  match d with
  | [] => None
  | (k, v) :: rest => if String.eqb key k then Some v else lookup key rest
  end.

Fixpoint remove_key {A} (key : string) (d : list (string * A))
  : list (string * A) :=
  match d with
  | [] => []
  | (k, v) :: rest =>
      if String.eqb key k then remove_key key rest
      else (k, v) :: remove_key key rest
  end.

(** [list.index] *)
Fixpoint index_of (key : string) (l : list string) : option nat :=
  match l with
  | [] => None
  | x :: xs =>
      if String.eqb key x then Some 0
      else option_map S (index_of key xs)
  end.

(** ** Operand binding of [_ExprMeta.__call__]

    The loop over [cls._parameters[len(operands):]].  Python evaluates the
    fallback [cls._defaults[parameter]] before calling [kwargs.pop], so a
    parameter without a declared default raises [KeyError] here even when
    the keyword was supplied.  The binding is generic in the operand type:
    nodes bind values, patterns bind sub-patterns and wildcards. *)

Section Binding.
Context {A : Type} (lit : value -> A).

Fixpoint fill_operands (k : kind) (params : list string)
         (acc : list A) (kwargs : list (string * A))
  : result (list A * list (string * A)) :=
  match params with
  | [] => Ok (acc, kwargs)
  | p :: ps =>
      match lookup p (_defaults k) with
      | None => Raise (KeyError p)
      | Some d =>
          let v := match lookup p kwargs with
                   | Some v => v
                   | None => lit d
                   end in
          fill_operands k ps (acc ++ [v]) (remove_key p kwargs)
      end
  end.

(** Operand list of a call of the class with positional [args] and
    keyword [kwargs]: defaults filled,
    [assert not kwargs], then matchpy's arity check for [Binop]
    ([Arity.binary]); the other classes are variadic. *)
Definition bind_operands (k : kind) (args : list A)
           (kwargs : list (string * A)) : result (list A) :=
  filled <- fill_operands k (skipn (List.length args) (_parameters k))
                                args kwargs ;;
  match snd filled with
  | _ :: _ => Raise AssertionError
  | [] =>
      if is_Binop k && negb (Nat.eqb (List.length (fst filled)) 2)
      then Raise ValueError
      else Ok (fst filled)
  end.
End Binding.

(** ** The rule catalog as data

    Every [ReplacementRule] the two modules yield.  The process-wide list
    [replacement_rules] holds them in registration order; patterns,
    constraints and rewrite functions are given per rule further down. *)

Inductive pushdown_variant : Type :=
| ProjectionLeft    (* op(ReadParquet(a, columns=_, filters=_)[d], e) *)
| ProjectionRight   (* op(e, ReadParquet(a, columns=_, filters=_)[d]) *)
| ColumnLeft        (* op(ReadParquet(a, columns=d, filters=_), e)    *)
| ColumnRight.      (* op(e, ReadParquet(a, columns=d, filters=_))    *)

Inductive rule_id : Type :=
| FilterProjectionRule                   (* Filter._replacement_rules      *)
| BinopProjectionRule (cls : kind)       (* Binop._replacement_rules       *)
| AddSelfRule                            (* Add._replacement_rules         *)
| MulFoldRule                            (* Mul._replacement_rules         *)
| ParquetProjectionRule                  (* ReadParquet, column projection *)
| ParquetPushdownRule (v : pushdown_variant) (op : kind).

Definition variant_eq_dec (a b : pushdown_variant) : {a = b} + {a <> b}.
Proof. decide equality. Defined.

Definition rule_eq_dec (a b : rule_id) : {a = b} + {a <> b}.
Proof. decide equality; auto using kind_eq_dec, variant_eq_dec. Defined.

(** ** Process-wide state *)

Record state : Type := mkState {
  seen : list kind;                    (* _ExprMeta.seen      *)
  replacement_rules : list rule_id;    (* replacement_rules   *)
  _defer_to_matchpy : bool             (* _defer_to_matchpy   *)
}.

(** State at import time. *)
Definition initial_state : state := mkState [] [] false.

Definition mem_kind (k : kind) (l : list kind) : bool :=
  existsb (kind_eqb k) l.

Definition add_seen (k : kind) (st : state) : state :=
  mkState (k :: seen st) (replacement_rules st) (_defer_to_matchpy st).

Definition append_rule (r : rule_id) (st : state) : state :=
  mkState (seen st) (replacement_rules st ++ [r]) (_defer_to_matchpy st).

Definition set_defer (b : bool) (st : state) : state :=
  mkState (seen st) (replacement_rules st) b.

(** ** The [_replacement_rules] generators

    Each generator is listed as its yields in order; a yield carries the
    classes instantiated while its pattern is built (in evaluation order),
    because instantiating a class for the first time registers that
    class's rules before the pending rule is appended. *)

Definition binop_rules (cls : kind) : list (list kind * rule_id) :=
  [([cls; Projection], BinopProjectionRule cls)].

Definition pushdown_rules (op : kind) : list (list kind * rule_id) :=
  [([ReadParquet; ReadParquet; Projection; op; Filter],
      ParquetPushdownRule ProjectionLeft op);
   ([ReadParquet; ReadParquet; Projection; op; Filter],
      ParquetPushdownRule ProjectionRight op);
   ([ReadParquet; ReadParquet; op; Filter],
      ParquetPushdownRule ColumnLeft op);
   ([ReadParquet; ReadParquet; op; Filter],
      ParquetPushdownRule ColumnRight op)].

Definition _replacement_rules (k : kind) : list (list kind * rule_id) :=
  match k with
  | Filter => [([Filter; Projection], FilterProjectionRule)]
  | Add => ([Add], AddSelfRule) :: binop_rules Add
  | Mul => ([Mul; Mul], MulFoldRule) :: binop_rules Mul
  | Sub | Div | LT | LE | GT | GE | EQ | NE => binop_rules k
  | ReadParquet =>
      ([ReadParquet; Projection], ParquetProjectionRule)
        :: flat_map pushdown_rules [LE; LT; GE; GT; EQ; NE]
  | _ => []
  end.

(** First part of [_ExprMeta.__call__]: collect a new class's rules.
    Nested first instantiations recurse; each one grows [seen], so the
    nesting is bounded by the number of classes, which is the fuel. *)
Fixpoint register (fuel : nat) (k : kind) (st : state) : state :=
  if mem_kind k (seen st) then st
  else
    match fuel with
    | O => add_seen k st
    | S fuel' =>
        fold_left
          (fun st step =>
             append_rule (snd step)
               (fold_left (fun st c => register fuel' c st) (fst step) st))
          (_replacement_rules k) (add_seen k st)
    end.

Definition number_of_kinds : nat := 19.
Arguments register : simpl never.

(** ** State-and-exception monad for code that instantiates nodes *)

Definition M (A : Type) : Type := state -> result A * state.

Definition ret {A} (a : A) : M A := fun st => (Ok a, st).
Definition raise {A} (e : exn) : M A := fun st => (Raise e, st).
Definition lift {A} (r : result A) : M A := fun st => (r, st).
Definition mbind {A B} (m : M A) (f : A -> M B) : M B :=
  fun st =>
    match m st with
    | (Ok a, st') => f a st'
    | (Raise e, st') => (Raise e, st')
    end.

Notation "x <~ m ;; k" := (mbind m (fun x => k))
  (at level 61, m at next level, right associativity).

(** [_ExprMeta.__call__]: register the class, bind the operands, build
    the node. *)
Definition call (k : kind) (args : list value)
           (kwargs : list (string * value)) : M expr :=
  fun st =>
    let st' := register number_of_kinds k st in
    (ops <- bind_operands (fun v => v) k args kwargs ;; Ok (Op k ops), st').

Definition get_state : M state := fun st => (Ok st, st).

(** ** Operator methods of [Expr] *)

(** [Expr.__getitem__]: [df[df.x > 1]] filters, anything else projects. *)
Definition __getitem__ (self : expr) (other : value) : M expr :=
  match other with
  | VExpr _ => call Filter [VExpr self; other] []
  | _ => call Projection [VExpr self; other] []
  end.

Definition __add__ (self : expr) (other : value) : M expr :=
  call Add [VExpr self; other] [].
Definition __radd__ (self : expr) (other : value) : M expr :=
  call Add [other; VExpr self] [].
Definition __sub__ (self : expr) (other : value) : M expr :=
  call Sub [VExpr self; other] [].
Definition __rsub__ (self : expr) (other : value) : M expr :=
  call Sub [other; VExpr self] [].
Definition __mul__ (self : expr) (other : value) : M expr :=
  call Mul [VExpr self; other] [].
Definition __rmul__ (self : expr) (other : value) : M expr :=
  call Mul [other; VExpr self] [].
Definition __truediv__ (self : expr) (other : value) : M expr :=
  call Div [VExpr self; other] [].
Definition __rtruediv__ (self : expr) (other : value) : M expr :=
  call Div [other; VExpr self] [].
Definition __lt__ (self : expr) (other : value) : M expr :=
  call LT [VExpr self; other] [].
Definition __gt__ (self : expr) (other : value) : M expr :=
  call GT [VExpr self; other] [].
Definition __le__ (self : expr) (other : value) : M expr :=
  call LE [VExpr self; other] [].
Definition __ge__ (self : expr) (other : value) : M expr :=
  call GE [VExpr self; other] [].

(** [Expr.__eq__] and [Expr.__ne__]: structural comparison while
    [_defer_to_matchpy] is set, a comparison node otherwise. *)
Definition __eq__ (self : expr) (other : value) : M value :=
  st <~ get_state ;;
  if _defer_to_matchpy st then ret (VBool (py_eq (VExpr self) other))
  else e <~ call EQ [other; VExpr self] [] ;; ret (VExpr e).

Definition __ne__ (self : expr) (other : value) : M value :=
  st <~ get_state ;;
  if _defer_to_matchpy st then ret (VBool (py_ne (VExpr self) other))
  else e <~ call NE [other; VExpr self] [] ;; ret (VExpr e).

(** [Expr.operand] *)
Definition operand (e : expr) (key : string) : result value :=
  match index_of key (_parameters (head e)) with
  | None => Raise ValueError
  | Some i =>
      match nth_error (operands e) i with
      | Some v => Ok v
      | None => Raise IndexError
      end
  end.

(** ** Patterns *)

Inductive pat : Type :=
| PWild (name : string)        (* Wildcard.dot(name) *)
| PAny                         (* Wildcard.dot()     *)
| PLit (v : value)
| POp (k : kind) (ps : list pat).

Definition subst : Type := list (string * value).

(** One-to-one matching of the patterns of this catalog: dot wildcards,
    literals and operations of fixed length.  A named wildcard met again
    must bind a value [==] to the first one. *)
Fixpoint pmatch (p : pat) (v : value) (s : subst) {struct p} : option subst :=
  match p with
  | PAny => Some s
  | PWild x =>
      match lookup x s with
      | None => Some ((x, v) :: s)
      | Some w => if py_ne v w then None else Some s
      end
  | PLit l => if py_eq v l then Some s else None
  | POp k ps =>
      match v with
      | VExpr (Op k' ops) =>
          if kind_eqb k k' then
            (fix go (ps : list pat) (ops : list value) (s : subst)
               : option subst :=
               match ps, ops with
               | [], [] => Some s
               | p :: ps', o :: ops' =>
                   match pmatch p o s with
                   | Some s' => go ps' ops' s'
                   | None => None
                   end
               | _, _ => None
               end) ps ops s
          else None
      | _ => None
      end
  end.

(** A pattern built by calling a class on wildcards: the same operand
    binding as for nodes, defaults becoming literal sub-patterns. *)
Definition pcall (k : kind) (args : list pat) (kwargs : list (string * pat))
  : result pat :=
  ops <- bind_operands PLit k args kwargs ;; Ok (POp k ops).

(** [ReadParquet(a, columns=b, filters=c)] on sub-patterns. *)
Definition ReadParquet_pat (a b c : pat) : pat :=
  POp ReadParquet
      ([a; b; c] ++
       map (fun p => match lookup p (_defaults ReadParquet) with
                     | Some d => PLit d
                     | None => PAny
                     end)
           (skipn 3 (_parameters ReadParquet))).

Definition pattern (r : rule_id) : pat :=
  match r with
  | FilterProjectionRule =>
      POp Projection
          [POp Filter [PWild "df"; PWild "condition"]; PWild "columns"]
  | BinopProjectionRule cls =>
      POp Projection [POp cls [PWild "left"; PWild "right"]; PWild "columns"]
  | AddSelfRule => POp Add [PWild "x"; PWild "x"]
  | MulFoldRule => POp Mul [PWild "a"; POp Mul [PWild "b"; PWild "c"]]
  | ParquetProjectionRule =>
      POp Projection
          [ReadParquet_pat (PWild "a") (PWild "b") (PWild "c"); PWild "d"]
  | ParquetPushdownRule v op =>
      let frame := ReadParquet_pat (PWild "a") (PWild "b") (PWild "c") in
      let column :=
        POp Projection [ReadParquet_pat (PWild "a") PAny PAny; PWild "d"] in
      let read := ReadParquet_pat (PWild "a") (PWild "d") PAny in
      POp Filter
          [frame;
           match v with
           | ProjectionLeft => POp op [column; PWild "e"]
           | ProjectionRight => POp op [PWild "e"; column]
           | ColumnLeft => POp op [read; PWild "e"]
           | ColumnRight => POp op [PWild "e"; read]
           end]
  end.

(** ** Helpers of the rewrite functions *)

(** [_list_columns] of [io/parquet.py]; [bool] is an [int]. *)
Definition _list_columns (columns : value) : value :=
  match columns with
  | VStr _ | VInt _ | VBool _ => VList [columns]
  | VTuple l => VList l
  | _ => columns
  end.

(** Truth value of an operand.  A node has at least one operand (every
    class declares a parameter without default), so it is true. *)
Definition truthy (v : value) : bool :=
  match v with
  | VNone => false
  | VBool b => b
  | VInt z => negb (Z.eqb z 0)
  | VStr s => negb (String.eqb s "")
  | VList l | VTuple l => match l with [] => false | _ => true end
  | VDict d => match d with [] => false | _ => true end
  | VExpr _ => true
  end.

(** [c or []] *)
Definition or_empty_list (c : value) : value :=
  if truthy c then c else VList [].

(** [x + [item]]: list concatenation, [Expr.__add__] on a node, a
    [TypeError] for every other left operand. *)
Definition plus_list (x : value) (items : list value) : M value :=
  match x with
  | VList l => ret (VList (l ++ items))
  | VExpr e => r <~ __add__ e (VList items) ;; ret (VExpr r)
  | _ => raise TypeError
  end.

(** The dict [flip_op] with [flip_op.get(op, op)]. *)
Definition flip_op (op : kind) : kind :=
  match op with
  | LE => GE | LT => GT | GE => LE | GT => LT
  | _ => op
  end.

(** Keyword argument of a rewrite function, taken from the match. *)
Definition arg (s : subst) (x : string) : M value :=
  match lookup x s with
  | Some v => ret v
  | None => raise TypeError
  end.

(** [predicate_pushdown(a, b, c, d, e, op=op)] *)
Definition predicate_pushdown (op : kind) (a b c d e : value) : M value :=
  filters <~ plus_list (or_empty_list c)
                       [VTuple [d; VStr (_operator_repr op); e]] ;;
  r <~ call ReadParquet [a]
         [("columns", _list_columns b); ("filters", filters)] ;;
  ret (VExpr r).

(** The [CustomConstraint] of a rule, on the bindings of a match. *)
Definition constraint (r : rule_id) (s : subst) : bool :=
  match r with
  | MulFoldRule =>
      match lookup "a" s, lookup "b" s with
      | Some a, Some b => is_Number a && is_Number b
      | _, _ => false
      end
  | ParquetPushdownRule (ColumnLeft | ColumnRight) _ =>
      match lookup "d" s with
      | Some (VStr _) => true
      | _ => false
      end
  | _ => true
  end.

(** First rule of the list that matches the subject. *)
Fixpoint first_match (rules : list rule_id) (v : value)
  : option (rule_id * subst) :=
  match rules with
  | [] => None
  | r :: rest =>
      match pmatch (pattern r) v [] with
      | Some s => if constraint r s then Some (r, s) else first_match rest v
      | None => first_match rest v
      end
  end.

(** Pre-order search of the first position where a rule applies.
    matchpy counts lists, tuples and dicts as operations too: the
    search enters the items of a list or tuple like the operands of a
    node, and a dict through its [(key, value)] items, each of them a
    tuple. *)
Fixpoint find_redex (rules : list rule_id) (v : value) {struct v}
  : option (list nat * rule_id * subst) :=
  match first_match rules v with
  | Some (r, s) => Some ([], r, s)
  | None =>
      match v with
      | VExpr (Op _ ops) | VList ops | VTuple ops =>
          (fix go (i : nat) (ops : list value)
             : option (list nat * rule_id * subst) :=
             match ops with
             | [] => None
             | o :: os =>
                 match find_redex rules o with
                 | Some (pos, r, s) => Some (i :: pos, r, s)
                 | None => go (S i) os
                 end
             end) 0%nat ops
      | VDict d =>
          (fix go (i : nat) (d : list (value * value))
             : option (list nat * rule_id * subst) :=
             match d with
             | [] => None
             | (k, o) :: rest =>
                 match first_match rules (VTuple [k; o]) with
                 | Some (r, s) => Some ([i], r, s)
                 | None =>
                     match find_redex rules k with
                     | Some (pos, r, s) => Some (i :: 0%nat :: pos, r, s)
                     | None =>
                         match find_redex rules o with
                         | Some (pos, r, s) => Some (i :: 1%nat :: pos, r, s)
                         | None => go (S i) rest
                         end
                     end
                 end
             end) 0%nat d
      | _ => None
      end
  end.

(** Items of a value that is a [Sequence]. *)
Definition sequence_items (v : value) : option (list value) :=
  match v with
  | VList l | VTuple l => Some l
  | VStr s => Some (map (fun c => VStr (String c EmptyString))
                        (list_ascii_of_string s))
  | _ => None
  end.

(** Operands after the one at index [i] has been replaced by [sub]: a
    sequence put at an operand position is spliced in. *)
Definition replace_operand (ops : list value) (i : nat) (sub : value)
  : list value :=
  match sequence_items sub with
  | Some items => (firstn i ops ++ items ++ skipn (S i) ops)%list
  | None => (firstn i ops ++ [sub] ++ skipn (S i) ops)%list
  end.

(** [hash(v)] succeeds.  [Expr] defines [__eq__] and no [__hash__], so
    a node is not hashable. *)
Fixpoint hashable (v : value) : bool :=
  match v with
  | VNone | VBool _ | VInt _ | VStr _ => true
  | VTuple l =>
      (fix all (l : list value) : bool :=
         match l with
         | [] => true
         | x :: xs => hashable x && all xs
         end) l
  | VList _ | VDict _ | VExpr _ => false
  end.

(** [list(v)]: the items of a sequence, the keys of a dict, the
    operands of a node. *)
Definition py_iter (v : value) : result (list value) :=
  match v with
  | VStr s => Ok (map (fun c => VStr (String c EmptyString))
                      (list_ascii_of_string s))
  | VList l | VTuple l => Ok l
  | VDict d => Ok (map fst d)
  | VExpr (Op _ ops) => Ok ops
  | VNone | VBool _ | VInt _ => Raise TypeError
  end.

(** [d[k] = v] on a dict kept in insertion order: an equal key keeps
    its place and takes the new value. *)
Fixpoint dict_set {V} (d : list (value * V)) (k : value) (v : V)
  : list (value * V) :=
  match d with
  | [] => [(k, v)]
  | (k', v') :: rest =>
      if py_eq k k' then (k', v) :: rest else (k', v') :: dict_set rest k v
  end.

(** [d.update(new)] *)
Definition dict_update {V} (d new : list (value * V)) : list (value * V) :=
  fold_left (fun acc kv => dict_set acc (fst kv) (snd kv)) new d.

(** [toolz.merge(dicts)]: an empty dict updated with every dict in
    turn, so that later values win. *)
Definition merge {V} (dicts : list (list (value * V))) : list (value * V) :=
  fold_left dict_update dicts [].

(** [dict(items)]: every item has to be iterable ([TypeError]) with
    exactly two elements ([ValueError]), the first of them hashable
    ([TypeError]). *)
Fixpoint py_dict (acc : list (value * value)) (items : list value)
  : result (list (value * value)) :=
  match items with
  | [] => Ok acc
  | x :: xs =>
      match py_iter x with
      | Raise e => Raise e
      | Ok [k; v] =>
          if hashable k then py_dict (dict_set acc k v) xs
          else Raise TypeError
      | Ok _ => Raise ValueError
      end
  end.

(** matchpy's [replace]: put [r] at position [pos], rebuilding every
    operation on the way up: a node by calling its class on the new
    operands, a list or tuple from the new items, a dict by [dict] on
    the new items.  A rebuilt list or tuple is itself a sequence, so
    it is spliced into the operation that held it; so is the rebuilt
    item of a dict. *)
Fixpoint replace_at (v : value) (pos : list nat) (r : value) {struct pos}
  : M value :=
  match pos with
  | [] => ret r
  | i :: pos' =>
      let operands_of :=
        match v with
        | VExpr (Op _ ops) | VList ops | VTuple ops => Some ops
        | VDict d => Some (map (fun kv => VTuple [fst kv; snd kv]) d)
        | _ => None
        end in
      match operands_of with
      | None => raise IndexError
      | Some ops =>
          match nth_error ops i with
          | None => raise IndexError
          | Some o =>
              sub <~ replace_at o pos' r ;;
              let new_operands := replace_operand ops i sub in
              match v with
              | VExpr (Op k _) =>
                  e <~ call k new_operands [] ;; ret (VExpr e)
              | VList _ => ret (VList new_operands)
              | VTuple _ => ret (VTuple new_operands)
              | VDict _ => d <~ lift (py_dict [] new_operands) ;; ret (VDict d)
              | _ => raise IndexError
              end
          end
      end
  end.

(** ** Rewrite functions, printing and [optimize]

    Two facts about Python's builtin values are taken as given: [repr] of
    strings and containers, and subscripting of a builtin value (reached
    only when a rule binds a non-node where a frame is expected). *)

Section Optimizer.
Variable py_repr : value -> string.
Variable py_getitem : value -> value -> result value.

(** [v[key]] for any operand [v]. *)
Definition getitem (v key : value) : M value :=
  match v with
  | VExpr e => r <~ __getitem__ e key ;; ret (VExpr r)
  | _ => lift (py_getitem v key)
  end.

(** The rewrite function of a rule, applied to the bindings. *)
Definition replacement (r : rule_id) (s : subst) : M value :=
  match r with
  | FilterProjectionRule =>
      (* lambda df, condition, columns: df[columns][condition] *)
      df <~ arg s "df" ;;
      condition <~ arg s "condition" ;;
      columns <~ arg s "columns" ;;
      projected <~ getitem df columns ;;
      getitem projected condition
  | BinopProjectionRule cls =>
      (* transform(left, right, columns, cls=cls) *)
      left <~ arg s "left" ;;
      right <~ arg s "right" ;;
      columns <~ arg s "columns" ;;
      left <~ (if is_Expr left then getitem left columns else ret left) ;;
      right <~ (if is_Expr right then getitem right columns else ret right) ;;
      e <~ call cls [left; right] [] ;;
      ret (VExpr e)
  | AddSelfRule =>
      (* lambda x: Mul(2, x) *)
      x <~ arg s "x" ;;
      e <~ call Mul [VInt 2; x] [] ;;
      ret (VExpr e)
  | MulFoldRule =>
      (* lambda a, b, c: Mul(a * b, c) *)
      a <~ arg s "a" ;;
      b <~ arg s "b" ;;
      c <~ arg s "c" ;;
      match num_val a, num_val b with
      | Some x, Some y =>
          e <~ call Mul [VInt (x * y); c] [] ;; ret (VExpr e)
      | _, _ => raise TypeError
      end
  | ParquetProjectionRule =>
      (* lambda a, b, c, d:
           ReadParquet(a, columns=_list_columns(d), filters=c) *)
      a <~ arg s "a" ;;
      b <~ arg s "b" ;;
      c <~ arg s "c" ;;
      d <~ arg s "d" ;;
      e <~ call ReadParquet [a]
             [("columns", _list_columns d); ("filters", c)] ;;
      ret (VExpr e)
  | ParquetPushdownRule v op =>
      a <~ arg s "a" ;;
      b <~ arg s "b" ;;
      c <~ arg s "c" ;;
      d <~ arg s "d" ;;
      e <~ arg s "e" ;;
      match v with
      | ProjectionLeft | ColumnLeft => predicate_pushdown op a b c d e
      | ProjectionRight | ColumnRight =>
          predicate_pushdown (flip_op op) a b c d e
      end
  end.

(** matchpy's [replace_all] on a fixed rule list: rewrite the first
    redex in pre-order and start over, until no rule applies.  [None]
    when more than [fuel] rewrites would be needed. *)
Fixpoint replace_loop (fuel : nat) (rules : list rule_id) (e : value)
         (st : state) : option (result value * state) :=
  match find_redex rules e with
  | None => Some (Ok e, st)
  | Some (pos, r, s) =>
      match fuel with
      | O => None
      | S fuel' =>
          match (res <~ replacement r s ;; replace_at e pos res) st with
          | (Ok e', st') => replace_loop fuel' rules e' st'
          | (Raise x, st') => Some (Raise x, st')
          end
      end
  end.

(** [replace_all(expr, replacement_rules)]: the list is copied when
    the call starts, so rules registered during the pass are not used
    before the next call. *)
Definition replace_all (fuel : nat) (e : value) (st : state)
  : option (result value * state) :=
  replace_loop fuel (replacement_rules st) e st.

(** [" " in base] *)
Fixpoint contains_space (s : string) : bool :=
  match s with
  | EmptyString => false
  | String c rest => Ascii.eqb c " "%char || contains_space rest
  end.

(** [str] of an operand; [Expr.__repr__] is [Expr.__str__]. *)
Fixpoint value_str (v : value) : result string :=
  match v with
  | VExpr e => expr_str e
  | VNone => Ok "None"
  | VBool b => Ok (if b then "True" else "False")
  | VInt z => Ok (NilZero.string_of_int (Z.to_int z))
  | VStr s => Ok s
  | _ => Ok (py_repr v)
  end
with expr_str (e : expr) : result string :=
  match e with
  | Op k ops =>
      if is_Binop k then
        (* Binop.__str__ *)
        match ops with
        | l :: r :: _ =>
            sl <- value_str l ;;
            sr <- value_str r ;;
            Ok (sl ++ " " ++ _operator_repr k ++ " " ++ sr)
        | _ => Raise IndexError
        end
      else
        match k with
        | Projection =>
            (* Projection.__str__ *)
            match ops with
            | frame :: columns :: _ =>
                base <- value_str frame ;;
                cols <- match columns with
                        | VExpr c => expr_str c
                        | VNone | VBool _ | VInt _ => value_str columns
                        | _ => Ok (py_repr columns)
                        end ;;
                Ok ((if contains_space base then "(" ++ base ++ ")"
                     else base) ++ "[" ++ cols ++ "]")
            | _ => Raise IndexError
            end
        | from_pandas => Ok "df"
        | _ =>
            (* Expr.__str__ *)
            parts <-
              (fix go (params : list string) (ops : list value)
                   {struct ops} : result (list string) :=
                 match params, ops with
                 | p :: ps, o :: os =>
                     if py_ne o (match lookup p (_defaults k) with
                                 | Some d => d
                                 | None => VNone
                                 end)
                     then s <- value_str o ;;
                          rest <- go ps os ;;
                          Ok ((p ++ "=" ++ s) :: rest)
                     else go ps os
                 | _, _ => Ok []
                 end) (_parameters k) ops ;;
            Ok (class_name k ++ "(" ++ String.concat ", " parts ++ ")")
        end
  end.

(** The loop of [optimize]: [while str(expr) != str(last)]. *)
Fixpoint optimize_loop (fuel : nat) (expr last : value) (st : state)
  : option (result value * state) :=
  match value_str expr with
  | Raise x => Some (Raise x, st)
  | Ok s =>
      match value_str last with
      | Raise x => Some (Raise x, st)
      | Ok s_last =>
          if negb (String.eqb s s_last) then
            match fuel with
            | O => None
            | S fuel' =>
                match replace_all fuel' expr st with
                | None => None
                | Some (Raise x, st') => Some (Raise x, st')
                | Some (Ok expr', st') => optimize_loop fuel' expr' expr st'
                end
            end
          else Some (Ok expr, st)
      end
  end.

(** [optimize]: the flag is set, the loop runs under [try], the
    [finally] clause clears the flag whatever the loop did.  [None]
    stands for a call that does not end within [fuel]. *)
Definition optimize (fuel : nat) (expr : value) (st : state)
  : option (result value * state) :=
  match optimize_loop fuel expr VNone (set_defer true st) with
  | None => None
  | Some (r, st') => Some (r, set_defer false st')
  end.
End Optimizer.

(** * Properties *)

(** ** Induction over operands and nodes *)

Section ValueInduction.
Variables (P : value -> Prop) (Q : expr -> Prop).
Hypothesis HNone : P VNone.
Hypothesis HBool : forall b, P (VBool b).
Hypothesis HInt : forall z, P (VInt z).
Hypothesis HStr : forall s, P (VStr s).
Hypothesis HList : forall l, Forall P l -> P (VList l).
Hypothesis HTuple : forall l, Forall P l -> P (VTuple l).
Hypothesis HDict :
  forall d, Forall (fun kv => P (fst kv) /\ P (snd kv)) d -> P (VDict d).
Hypothesis HExpr : forall e, Q e -> P (VExpr e).
Hypothesis HOp : forall k ops, Forall P ops -> Q (Op k ops).

Fixpoint value_expr_ind (v : value) : P v :=
  let fix on_list (l : list value) : Forall P l :=
    match l with
    | [] => Forall_nil _
    | x :: xs => Forall_cons x (value_expr_ind x) (on_list xs)
    end in
  let fix on_dict (d : list (value * value))
    : Forall (fun kv => P (fst kv) /\ P (snd kv)) d :=
    match d with
    | [] => Forall_nil _
    | (k, x) :: rest =>
        Forall_cons (k, x) (conj (value_expr_ind k) (value_expr_ind x))
                    (on_dict rest)
    end in
  match v with
  | VNone => HNone
  | VBool b => HBool b
  | VInt z => HInt z
  | VStr s => HStr s
  | VList l => HList l (on_list l)
  | VTuple l => HTuple l (on_list l)
  | VDict d => HDict d (on_dict d)
  | VExpr (Op k ops) => HExpr (Op k ops) (HOp k ops (on_list ops))
  end.

Lemma expr_value_ind (e : expr) : Q e.
Proof.
  destruct e as [k ops]. apply HOp.
  induction ops; constructor; auto using value_expr_ind.
Qed.
End ValueInduction.

(** Unfolding equations of [py_eq] on containers and nodes. *)
Lemma py_eq_VList l m : py_eq (VList l) (VList m) = py_eq_list l m.
Proof.
  simpl. revert m.
  induction l as [|x xs IH]; intros [|y ys]; simpl; rewrite ?IH; auto.
Qed.

Lemma py_eq_VTuple l m : py_eq (VTuple l) (VTuple m) = py_eq_list l m.
Proof.
  simpl. revert m.
  induction l as [|x xs IH]; intros [|y ys]; simpl; rewrite ?IH; auto.
Qed.

Lemma expr_eq_Op k l k' l' :
  expr_eq (Op k l) (Op k' l') = kind_eqb k k' && py_eq_list l l'.
Proof.
  revert l'.
  induction l as [|x xs IH]; intros [|y ys]; simpl in *;
    rewrite ?andb_false_r; auto.
Qed.

Lemma kind_eqb_refl k : kind_eqb k k = true.
Proof. unfold kind_eqb. destruct (kind_eq_dec k k); congruence. Qed.

Lemma kind_eqb_eq a b : kind_eqb a b = true <-> a = b.
Proof. unfold kind_eqb. destruct (kind_eq_dec a b); split; congruence. Qed.

(** Membership of a dict item, and inclusion of dicts, as [py_eq] on
    dicts computes them. *)
Fixpoint dict_has (k v : value) (d : list (value * value)) : bool :=
  match d with
  | [] => false
  | (k', v') :: rest => (py_eq k k' && py_eq v v') || dict_has k v rest
  end.

Fixpoint dict_sub (d d' : list (value * value)) : bool :=
  match d with
  | [] => true
  | (k, v) :: rest => dict_has k v d' && dict_sub rest d'
  end.

Lemma py_eq_VDict d d' :
  py_eq (VDict d) (VDict d') =
  Nat.eqb (List.length d) (List.length d') && dict_sub d d'.
Proof.
  simpl. f_equal.
  induction d as [|[k v] rest IH]; simpl; auto.
  rewrite IH. f_equal. clear IH.
  induction d' as [|[k' v'] rest' IH']; simpl; auto.
  now rewrite IH'.
Qed.

Lemma dict_sub_cons d kv d' : dict_sub d d' = true -> dict_sub d (kv :: d') = true.
Proof.
  induction d as [|[k v] rest IH]; simpl; auto.
  intros H. apply andb_true_iff in H as [H1 H2].
  destruct kv as [k' v']. rewrite H1, IH by assumption.
  now rewrite orb_true_r.
Qed.

(** [==] is reflexive on every value of the model. *)
Lemma py_eq_refl (v : value) : py_eq v v = true.
Proof.
  induction v using value_expr_ind
    with (Q := fun e => expr_eq e e = true).
  - reflexivity.
  - simpl. apply Z.eqb_refl.
  - simpl. apply Z.eqb_refl.
  - simpl. apply String.eqb_refl.
  - rewrite py_eq_VList. induction H; simpl; auto. now rewrite H, IHForall.
  - rewrite py_eq_VTuple. induction H; simpl; auto. now rewrite H, IHForall.
  - rewrite py_eq_VDict, Nat.eqb_refl. simpl.
    induction H as [|[k x] rest [Hk Hx] _ IH]; simpl in *; auto.
    rewrite Hk, Hx. simpl. now apply dict_sub_cons.
  - simpl. assumption.
  - rewrite expr_eq_Op, kind_eqb_refl. simpl.
    induction H; simpl; auto. now rewrite H, IHForall.
Qed.

Lemma py_eq_list_refl (l : list value) : py_eq_list l l = true.
Proof. induction l; simpl; auto. now rewrite py_eq_refl. Qed.

Lemma py_ne_refl (v : value) : py_ne v v = false.
Proof. unfold py_ne. now rewrite py_eq_refl. Qed.

(** ** Node construction *)

(** The operand bound to parameter [p] when it is not given by
    position: the keyword if present, the declared default otherwise. *)
Definition bound_operand (k : kind) (kwargs : list (string * value))
           (p : string) : value :=
  match lookup p kwargs with
  | Some v => v
  | None => match lookup p (_defaults k) with
            | Some d => d
            | None => VNone
            end
  end.

Definition mem_string (x : string) (l : list string) : bool :=
  existsb (String.eqb x) l.

Lemma mem_string_In x l : mem_string x l = true <-> In x l.
Proof.
  unfold mem_string. rewrite existsb_exists. split.
  - intros [y [Hy Heq]]. apply String.eqb_eq in Heq. now subst.
  - intros H. exists x. split; auto. apply String.eqb_refl.
Qed.

Lemma lookup_remove_key_ne {A} p q (kw : list (string * A)) :
  p <> q -> lookup p (remove_key q kw) = lookup p kw.
Proof.
  intros Hne. induction kw as [|[k v] rest IH]; simpl; auto.
  destruct (String.eqb q k) eqn:Hq; simpl.
  - apply String.eqb_eq in Hq. subst k.
    destruct (String.eqb p q) eqn:Hp; auto.
    apply String.eqb_eq in Hp. contradiction.
  - now rewrite IH.
Qed.

Lemma remove_key_filter {A} q (kw : list (string * A)) :
  remove_key q kw = filter (fun kv => negb (String.eqb q (fst kv))) kw.
Proof.
  induction kw as [|[k v] rest IH]; simpl; auto.
  destruct (String.eqb q k); simpl; now rewrite IH.
Qed.

(** What the binding loop returns when every parameter it visits has a
    declared default: the operands in declared order and the keywords
    that matched none of the visited parameters. *)
Lemma fill_operands_spec k params acc (kwargs : list (string * value)) :
  NoDup params ->
  (forall p, In p params -> lookup p (_defaults k) <> None) ->
  fill_operands (fun v => v) k params acc kwargs =
  Ok ((acc ++ map (bound_operand k kwargs) params)%list,
      filter (fun kv => negb (mem_string (fst kv) params)) kwargs).
Proof.
  revert acc kwargs.
  induction params as [|p ps IH]; intros acc kwargs Hnd Hdef; simpl.
  - rewrite app_nil_r. f_equal. f_equal.
    induction kwargs as [|kv rest IHk]; simpl; auto. now rewrite <- IHk.
  - inversion Hnd as [|? ? Hnotin Hnd']; subst.
    destruct (lookup p (_defaults k)) as [d|] eqn:Hd.
    2:{ exfalso. apply (Hdef p); auto. now left. }
    rewrite IH; auto.
    2:{ intros q Hq. apply Hdef. now right. }
    f_equal. f_equal.
    + rewrite <- app_assoc. simpl. f_equal. f_equal.
      * unfold bound_operand. now rewrite Hd.
      * apply map_ext_in. intros q Hq. unfold bound_operand.
        rewrite lookup_remove_key_ne; auto.
        intros ->. contradiction.
    + rewrite remove_key_filter.
      induction kwargs as [|[kk v] rest IHk]; simpl; auto.
      rewrite (String.eqb_sym kk p).
      destruct (String.eqb p kk); simpl; rewrite IHk; reflexivity.
Qed.

Lemma NoDup_parameters k : NoDup (_parameters k).
Proof.
  destruct k; simpl;
    repeat (constructor; [simpl; intuition discriminate|]); constructor.
Qed.

Lemma NoDup_skipn {A} n (l : list A) : NoDup l -> NoDup (skipn n l).
Proof.
  revert l. induction n; intros l H; simpl; auto.
  destruct l; auto. inversion H; auto.
Qed.

(** The outcome of a constructor call whose non-positional parameters
    all have declared defaults. *)
Lemma call_outcome k args kwargs st :
  let rest := skipn (List.length args) (_parameters k) in
  let ops := (args ++ map (bound_operand k kwargs) rest)%list in
  (forall p, In p rest -> lookup p (_defaults k) <> None) ->
  fst (call k args kwargs st) =
  if forallb (fun kv => mem_string (fst kv) rest) kwargs
  then if is_Binop k && negb (Nat.eqb (List.length ops) 2)
       then Raise ValueError else Ok (Op k ops)
  else Raise AssertionError.
Proof.
  intros rest ops Hdef. unfold call, bind_operands. simpl.
  fold rest. rewrite fill_operands_spec; auto.
  2:{ apply NoDup_skipn, NoDup_parameters. }
  simpl. fold ops.
  destruct (filter _ kwargs) as [|kv l] eqn:Hf.
  - assert (Hall : forallb (fun kv => mem_string (fst kv) rest) kwargs = true).
    { apply forallb_forall. intros kv Hin.
      destruct (mem_string (fst kv) rest) eqn:Hm; auto.
      assert (In kv (filter (fun kv => negb (mem_string (fst kv) rest)) kwargs)).
      { apply filter_In. split; auto. now rewrite Hm. }
      rewrite Hf in H. contradiction. }
    rewrite Hall. destruct (is_Binop k && _); reflexivity.
  - assert (Hin : In kv (filter (fun kv => negb (mem_string (fst kv) rest)) kwargs)).
    { rewrite Hf. now left. }
    apply filter_In in Hin as [Hin Hneg].
    destruct (forallb _ kwargs) eqn:Hall; auto.
    rewrite forallb_forall in Hall. rewrite (Hall kv Hin) in Hneg.
    discriminate.
Qed.

(** Parameters left for keywords and defaults after [args]. *)
Definition keyword_parameters (k : kind) (args : list value) : list string :=
  skipn (List.length args) (_parameters k).

Lemma In_skipn {A} (x : A) n l : In x (skipn n l) -> In x l.
Proof.
  revert l. induction n; intros l H; simpl in *; auto.
  destruct l; auto. right. auto.
Qed.

(** C8 (as amended).  When every parameter that is not bound by position
    has a declared default, a constructor call (1) fails with the
    assertion error of [assert not kwargs] -- the spec's UnexpectedOperand
    -- as soon as one keyword is not a declared parameter, and (2)
    otherwise, when all keywords name parameters left after the
    positional ones, builds the node whose operands are the positional
    values followed, in declared order, by the keyword value or the
    declared default of each remaining parameter. *)
Theorem call_binds_defaults_and_checks_keywords k args kwargs st :
  (forall p, In p (keyword_parameters k args) ->
             lookup p (_defaults k) <> None) ->
  ((exists kw, In kw (map fst kwargs) /\ ~ In kw (_parameters k)) ->
   fst (call k args kwargs st) = Raise AssertionError)
  /\
  ((forall kw, In kw (map fst kwargs) -> In kw (keyword_parameters k args)) ->
   (is_Binop k = true -> List.length args = 2%nat) ->
   fst (call k args kwargs st) =
   Ok (Op k (args ++ map (bound_operand k kwargs)
                         (keyword_parameters k args)))).
Proof.
  intros Hdef. pose proof (call_outcome k args kwargs st Hdef) as Hc.
  cbv zeta in Hc. fold (keyword_parameters k args) in Hc.
  split.
  - intros [kw [Hin Hnot]]. rewrite Hc.
    destruct (forallb _ kwargs) eqn:Hall; auto.
    rewrite forallb_forall in Hall.
    apply in_map_iff in Hin as [[kw' v] [Heq Hin]]. simpl in Heq. subst kw'.
    specialize (Hall _ Hin). simpl in Hall.
    apply mem_string_In in Hall. apply In_skipn in Hall. contradiction.
  - intros Hkw Harity. rewrite Hc.
    assert (Hall : forallb (fun kv => mem_string (fst kv)
                              (keyword_parameters k args)) kwargs = true).
    { apply forallb_forall. intros kv Hin. apply mem_string_In, Hkw.
      apply in_map_iff. now exists kv. }
    rewrite Hall.
    destruct (is_Binop k) eqn:Hb; simpl; auto.
    specialize (Harity eq_refl).
    assert (Hrest : keyword_parameters k args = []).
    { unfold keyword_parameters. rewrite Harity.
      destruct k; simpl in *; try discriminate; reflexivity. }
    rewrite Hrest. simpl. rewrite app_nil_r, Harity. reflexivity.
Qed.

Lemma call_binds_defaults_and_checks_keywords_witness :
  (forall p, In p (keyword_parameters ReadCSV [VStr "a.csv"]) ->
             lookup p (_defaults ReadCSV) <> None)
  /\ fst (call ReadCSV [VStr "a.csv"] [("bogus", VInt 1)] initial_state)
     = Raise AssertionError
  /\ fst (call ReadCSV [VStr "a.csv"] [("header", VInt 0)] initial_state)
     = Ok (Op ReadCSV [VStr "a.csv"; VNone; VInt 0]).
Proof.
  assert (H : forall p, In p (keyword_parameters ReadCSV [VStr "a.csv"]) ->
                        lookup p (_defaults ReadCSV) <> None).
  { simpl. intros p [<-|[<-|[]]]; simpl; discriminate. }
  split; [exact H|]. split.
  - apply (proj1 (call_binds_defaults_and_checks_keywords
                    ReadCSV [VStr "a.csv"] [("bogus", VInt 1)]
                    initial_state H)).
    exists "bogus". split; [simpl; auto|].
    simpl. intros [E|[E|[E|[]]]]; discriminate.
  - apply (proj2 (call_binds_defaults_and_checks_keywords
                    ReadCSV [VStr "a.csv"] [("header", VInt 0)]
                    initial_state H)).
    + simpl. intros kw [<-|[]]. auto.
    + discriminate.
Defined.

(** C8 as stated fails: with a parameter that has no default still
    unbound, an unknown keyword is never reached by the assertion; the
    lookup of the missing default raises [KeyError] first. *)
Lemma undeclared_keyword_not_always_assertion :
  ~ (forall k args kwargs st,
        (exists kw, In kw (map fst kwargs) /\ ~ In kw (_parameters k)) ->
        fst (call k args kwargs st) = Raise AssertionError).
Proof.
  intros H.
  specialize (H Filter [VNone] [("bogus", VInt 1)] initial_state).
  assert (Hex : exists kw, In kw (map fst [("bogus", VInt 1)])
                           /\ ~ In kw (_parameters Filter)).
  { exists "bogus". split; [simpl; auto|].
    simpl. intros [E|[E|[]]]; discriminate. }
  specialize (H Hex). vm_compute in H. discriminate.
Qed.

(** ** The two equality modes *)

(** C10.  With [_defer_to_matchpy] clear, [e == x] and [e != x] build the
    nodes [EQ(x, e)] and [NE(x, e)]: the node's [left] operand is the
    right-hand side of the written comparison and its [right] operand is
    [e].  With the flag set, the same operators build nothing, leave the
    state alone and return the boolean of the structural comparison. *)
Theorem eq_ne_reversed_operands_or_structural (e : expr) (x : value)
        (st : state) :
  (_defer_to_matchpy st = false ->
   fst (__eq__ e x st) = Ok (VExpr (Op EQ [x; VExpr e])) /\
   fst (__ne__ e x st) = Ok (VExpr (Op NE [x; VExpr e])) /\
   operand (Op EQ [x; VExpr e]) "left" = Ok x /\
   operand (Op EQ [x; VExpr e]) "right" = Ok (VExpr e) /\
   operand (Op NE [x; VExpr e]) "left" = Ok x /\
   operand (Op NE [x; VExpr e]) "right" = Ok (VExpr e))
  /\
  (_defer_to_matchpy st = true ->
   __eq__ e x st = (Ok (VBool (py_eq (VExpr e) x)), st) /\
   __ne__ e x st = (Ok (VBool (negb (py_eq (VExpr e) x))), st)).
Proof.
  split; intros Hflag.
  - unfold __eq__, __ne__, mbind, get_state. rewrite Hflag.
    unfold call, ret. simpl. repeat split; reflexivity.
  - unfold __eq__, __ne__, mbind, get_state, py_ne. rewrite Hflag.
    split; reflexivity.
Qed.

Lemma eq_ne_reversed_operands_or_structural_witness :
  (_defer_to_matchpy initial_state = false /\
   fst (__eq__ (Op Index [VNone]) (VInt 3) initial_state)
   = Ok (VExpr (Op EQ [VInt 3; VExpr (Op Index [VNone])])))
  /\
  (_defer_to_matchpy (set_defer true initial_state) = true /\
   __eq__ (Op Index [VNone]) (VInt 3) (set_defer true initial_state)
   = (Ok (VBool false), set_defer true initial_state)).
Proof.
  split.
  - split; [reflexivity|].
    apply (proj1 (eq_ne_reversed_operands_or_structural
                    (Op Index [VNone]) (VInt 3) initial_state)).
    reflexivity.
  - split; [reflexivity|].
    apply (proj1 (proj2 (eq_ne_reversed_operands_or_structural
                           (Op Index [VNone]) (VInt 3)
                           (set_defer true initial_state)) eq_refl)).
Defined.

(** ** [optimize] and the equality flag *)

(** C7.  Whenever a call of [optimize] ends -- with a tree or with an
    exception raised while rewriting or printing -- the state it leaves
    has [_defer_to_matchpy] clear. *)
Theorem optimize_restores_equality_mode
        (py_repr : value -> string)
        (py_getitem : value -> value -> result value)
        (fuel : nat) (expr : value) (st st' : state)
        (outcome : result value) :
  optimize py_repr py_getitem fuel expr st = Some (outcome, st') ->
  _defer_to_matchpy st' = false.
Proof.
  unfold optimize.
  destruct (optimize_loop _ _ fuel expr VNone (set_defer true st))
    as [[r s]|]; [|discriminate].
  intros H. inversion H. reflexivity.
Qed.

(** ** States in which every class is registered

    Instantiating a class that is already in [seen] leaves the state
    alone, so in such a state rewriting is pure. *)

Definition all_seen (st : state) : Prop :=
  forall k, mem_kind k (seen st) = true.

(** A computation that leaves the state [st] unchanged. *)
Definition stable {A} (m : M A) (st : state) : Prop := snd (m st) = st.

Lemma register_seen n k st :
  mem_kind k (seen st) = true -> register n k st = st.
Proof. intros H. destruct n; unfold register; now rewrite H. Qed.

Lemma stable_ret {A} (a : A) st : stable (ret a) st.
Proof. reflexivity. Qed.

Lemma stable_raise {A} e st : stable (@raise A e) st.
Proof. reflexivity. Qed.

Lemma stable_lift {A} (r : result A) st : stable (lift r) st.
Proof. reflexivity. Qed.

Lemma stable_mbind {A B} (m : M A) (f : A -> M B) st :
  stable m st -> (forall a, stable (f a) st) -> stable (mbind m f) st.
Proof.
  unfold stable, mbind. intros Hm Hf.
  destruct (m st) as [[a|e] st1]; simpl in *; subst; auto.
Qed.

Lemma stable_call k args kwargs st :
  all_seen st -> stable (call k args kwargs) st.
Proof. intros H. unfold stable, call. simpl. apply register_seen, H. Qed.

Create HintDb stable.
#[local] Hint Resolve stable_ret stable_raise stable_lift stable_call
  : stable.

Ltac stable_step :=
  match goal with
  | |- stable (mbind _ _) _ => apply stable_mbind; [|intros ?]
  | |- stable (if ?b then _ else _) _ => destruct b
  | |- stable (match ?x with _ => _ end) _ => destruct x
  | |- stable _ _ => solve [auto with stable]
  end.

Lemma stable_getitem_expr e key st :
  all_seen st -> stable (__getitem__ e key) st.
Proof. intros H. unfold __getitem__. destruct key; auto with stable. Qed.

Lemma stable_arg s x st : stable (arg s x) st.
Proof. unfold arg. destruct (lookup x s); auto with stable. Qed.

Lemma stable_plus_list x items st :
  all_seen st -> stable (plus_list x items) st.
Proof.
  intros H. unfold plus_list, __add__.
  destruct x; repeat stable_step.
Qed.

Lemma stable_predicate_pushdown op a b c d e st :
  all_seen st -> stable (predicate_pushdown op a b c d e) st.
Proof.
  intros H. unfold predicate_pushdown.
  apply stable_mbind; [now apply stable_plus_list|intros ?].
  repeat stable_step.
Qed.

#[local] Hint Resolve stable_getitem_expr stable_arg stable_plus_list
  stable_predicate_pushdown : stable.

Section Purity.
Variable py_repr : value -> string.
Variable py_getitem : value -> value -> result value.

Lemma stable_getitem v key st :
  all_seen st -> stable (getitem py_getitem v key) st.
Proof. intros H. unfold getitem. destruct v; repeat stable_step. Qed.

Lemma stable_replacement r s st :
  all_seen st -> stable (replacement py_getitem r s) st.
Proof.
  intros H. pose proof (stable_getitem) as Hg.
  destruct r; simpl; repeat (stable_step; auto).
Qed.

Lemma stable_replace_at v pos r st :
  all_seen st -> stable (replace_at v pos r) st.
Proof.
  intros H. revert v. induction pos as [|i pos IH]; intros v; simpl.
  - auto with stable.
  - destruct v as [| | | |l|l|d|[k ops]]; auto with stable;
      match goal with
      | |- stable (match nth_error ?l ?i with _ => _ end) _ =>
          destruct (nth_error l i); auto with stable
      end;
      (apply stable_mbind; [apply IH|intros sub]); repeat stable_step.
Qed.

(** A pass in a fully registered state ends in the state it began in. *)
Lemma replace_loop_state fuel rules e st out st' :
  all_seen st ->
  replace_loop py_getitem fuel rules e st = Some (out, st') -> st' = st.
Proof.
  intros Hall. revert e. induction fuel as [|n IH]; intros e; simpl.
  - destruct (find_redex rules e) as [[[pos r] s]|]; [discriminate|].
    intros H. now inversion H.
  - destruct (find_redex rules e) as [[[pos r] s]|].
    2:{ intros H. now inversion H. }
    pose proof (stable_mbind (replacement py_getitem r s)
                  (fun res => replace_at e pos res) st
                  (stable_replacement r s st Hall)
                  (fun res => stable_replace_at e pos res st Hall)) as Hst.
    unfold stable in Hst.
    destruct (mbind _ _ st) as [[e'|x] st1]; simpl in Hst; subst st1.
    + apply IH.
    + intros H. now inversion H.
Qed.
End Purity.

(** ** The rewrite pass and the fixed-point loop *)

Section Loop.
Variable py_repr : value -> string.
Variable py_getitem : value -> value -> result value.


(** A tree in which no rule applies is returned as it is, whatever
    the fuel. *)
Lemma replace_loop_normal_input fuel rules e st :
  find_redex rules e = None ->
  replace_loop py_getitem fuel rules e st = Some (Ok e, st).
Proof. intros H. destruct fuel; simpl; now rewrite H. Qed.

(** The tree a pass returns admits no further rewrite by the rules
    the pass used. *)
Lemma replace_loop_normal_output fuel rules e st N st' :
  replace_loop py_getitem fuel rules e st = Some (Ok N, st') ->
  find_redex rules N = None.
Proof.
  revert e st. induction fuel as [|n IH]; intros e st; simpl.
  - destruct (find_redex rules e) as [[[pos r] s]|] eqn:Hf; [discriminate|].
    intros H. inversion H. now subst.
  - destruct (find_redex rules e) as [[[pos r] s]|] eqn:Hf.
    2:{ intros H. inversion H. now subst. }
    destruct (mbind _ _ st) as [[e'|x] st1]; [apply IH|discriminate].
Qed.

(** More fuel does not change the outcome of a pass. *)
Lemma replace_loop_mono fuel rules e st out :
  replace_loop py_getitem fuel rules e st = Some out ->
  forall fuel', fuel <= fuel' -> replace_loop py_getitem fuel' rules e st = Some out.
Proof.
  revert e st. induction fuel as [|n IH]; intros e st H fuel' Hle.
  - simpl in H.
    destruct (find_redex rules e) as [[[pos r] s]|] eqn:Hf; [discriminate|].
    destruct fuel'; simpl; now rewrite Hf.
  - destruct fuel' as [|m]; [lia|]. simpl in *.
    destruct (find_redex rules e) as [[[pos r] s]|] eqn:Hf; auto.
    destruct (mbind _ _ st) as [[e'|x] st1]; auto.
    apply IH; auto. lia.
Qed.

End Loop.

(** ** Printed forms of nodes *)

Fixpoint has_char (c : ascii) (s : string) : bool :=
  match s with
  | EmptyString => false
  | String c' rest => Ascii.eqb c c' || has_char c rest
  end.

Lemma has_char_app c a b :
  has_char c (a ++ b) = has_char c a || has_char c b.
Proof.
  induction a as [|x a IH]; simpl; auto. now rewrite IH, orb_assoc.
Qed.

(** No node prints as ["None"], the printed form of the initial
    [last]: the loop of [optimize] always runs at least one pass on a
    node. *)
Lemma expr_str_not_None (py_repr : value -> string) (e : expr) :
  expr_str py_repr e <> Ok "None".
Proof.
  destruct e as [k ops]. simpl.
  destruct (is_Binop k) eqn:Hb.
  - destruct ops as [|l [|r rest]]; try discriminate.
    destruct (value_str py_repr l) as [sl|]; simpl; [|discriminate].
    destruct (value_str py_repr r) as [sr|]; simpl; [|discriminate].
    intros H. inversion H as [H1].
    apply (f_equal (has_char " "%char)) in H1.
    rewrite has_char_app in H1. simpl in H1.
    rewrite orb_true_r in H1. discriminate.
  - assert (Hgen :
      forall parts : result (list string),
        (parts' <- parts ;;
         Ok (class_name k ++ "(" ++ String.concat ", " parts' ++ ")"))
        <> Ok "None").
    { intros [parts|x]; simpl; [|discriminate].
      intros H. inversion H as [H1].
      apply (f_equal (has_char "("%char)) in H1.
      rewrite has_char_app in H1. simpl in H1.
      rewrite orb_true_r in H1. discriminate. }
    destruct k; try discriminate Hb; try apply Hgen; try discriminate.
    destruct ops as [|frame [|columns rest]]; try discriminate.
    destruct (value_str py_repr frame) as [base|]; simpl; [|discriminate].
    match goal with
    | |- (cols <- ?c ;; _) <> _ => destruct c as [cols|]
    end; simpl; [|discriminate].
    intros H. inversion H as [H1].
    apply (f_equal (has_char "["%char)) in H1.
    rewrite has_char_app in H1. simpl in H1.
    rewrite orb_true_r in H1. discriminate.
Qed.

(** ** Idempotence of [optimize] *)

Lemma all_seen_set_defer b st : all_seen st -> all_seen (set_defer b st).
Proof. intros H k. apply H. Qed.


(** ** Sample states and trees *)

Definition all_kinds : list kind :=
  [AsType; Apply; Filter; Projection; Index;
   Add; Sub; Mul; Div; LT; LE; GT; GE; EQ; NE;
   ReadCSV; from_pandas; from_graph; ReadParquet].

(** The state of a process that has instantiated every class once. *)
Definition registered_state : state :=
  fold_left (fun st k => register number_of_kinds k st) all_kinds
            initial_state.

Lemma registered_state_all_seen : all_seen registered_state.
Proof. intros k. destruct k; vm_compute; reflexivity. Defined.

(** Stand-ins for Python's [repr] and builtin subscripting where a
    concrete run needs them. *)
Definition sample_repr (v : value) : string := "<object>".
Definition sample_getitem (v key : value) : result value := Raise TypeError.

(** [from_pandas(frame)] with an opaque frame. *)
Definition sample_df : value := VExpr (Op from_pandas [VNone; VInt 1]).


(** ** A tree on which [optimize] stops before a fixed point

    [from_pandas.__str__] is ["df"] whatever the node holds, so a pass
    that rewrites below a [from_pandas] node leaves the printed form
    unchanged and ends the loop, while rules that the pass itself
    registered have not been tried. *)

(** [df = from_pandas(None); from_pandas((df + df) + (df + df))] *)
Definition nested_sum_example : M value :=
  df <~ call from_pandas [VNone] [] ;;
  left <~ __add__ df (VExpr df) ;;
  right <~ __add__ df (VExpr df) ;;
  total <~ __add__ left (VExpr right) ;;
  T <~ call from_pandas [VExpr total] [] ;;
  ret (VExpr T).

(** The state of a process that has run [nested_sum_example] only,
    and that state once [Mul] has been instantiated as well. *)
Definition after_nested_sum : state :=
  mkState [Projection; Add; from_pandas]
          [AddSelfRule; BinopProjectionRule Add] false.

Definition after_first_optimize : state :=
  mkState [Mul; Projection; Add; from_pandas]
          [AddSelfRule; BinopProjectionRule Add;
           MulFoldRule; BinopProjectionRule Mul] false.

(** C3.  [optimize] is not idempotent.  Run in a fresh process,
    [nested_sum_example] builds [T = from_pandas((df + df) + (df + df))].
    [optimize(T)] returns [R = from_pandas(2 * (2 * df))]: its only
    pass instantiates [Mul] for the first time, [T] and [R] both print
    as ["df"], and the loop stops although the Mul rule, registered
    during that pass, applies inside [R].  [optimize(R)] then returns
    [from_pandas(4 * df)], which is not [R]. *)
Theorem optimize_stops_before_fixed_point
        (py_repr : value -> string)
        (py_getitem : value -> value -> result value) :
  let T := VExpr (Op from_pandas
                     [VExpr (Op Add [VExpr (Op Add [sample_df; sample_df]);
                                     VExpr (Op Add [sample_df; sample_df])]);
                      VInt 1]) in
  let R := VExpr (Op from_pandas
                     [VExpr (Op Mul [VInt 2;
                                     VExpr (Op Mul [VInt 2; sample_df])]);
                      VInt 1]) in
  let R' := VExpr (Op from_pandas
                      [VExpr (Op Mul [VInt 4; sample_df]); VInt 1]) in
  nested_sum_example initial_state = (Ok T, after_nested_sum) /\
  optimize py_repr py_getitem 3 T after_nested_sum
  = Some (Ok R, after_first_optimize) /\
  value_str py_repr T = Ok "df" /\
  value_str py_repr R = Ok "df" /\
  find_redex (replacement_rules after_first_optimize) R
  = Some ([0%nat], MulFoldRule,
          [("c", sample_df); ("b", VInt 2); ("a", VInt 2)]) /\
  optimize py_repr py_getitem 3 R after_first_optimize
  = Some (Ok R', after_first_optimize) /\
  R' <> R.
Proof.
  cbv zeta. repeat split; try (vm_compute; reflexivity).
  discriminate.
Qed.

(** A filter over a read whose [filters] operand is a tuple: the
    pushdown rule matches, and its rewrite function raises on
    [tuple + list]. *)
Definition sample_read (filters : value) : expr :=
  Op ReadParquet
     ([VStr "p"; VNone; filters] ++
      map (bound_operand ReadParquet [])
          (skipn 3 (_parameters ReadParquet))).

Definition raising_tree : value :=
  VExpr (Op Filter
            [VExpr (sample_read (VTuple [VTuple [VStr "y"; VStr "<"; VInt 1]]));
             VExpr (Op GT [VExpr (Op Projection
                                     [VExpr (sample_read VNone); VStr "x"]);
                           VInt 5])]).

Lemma optimize_restores_equality_mode_witness :
  (exists st',
      optimize sample_repr sample_getitem 3 raising_tree registered_state
      = Some (Raise TypeError, st') /\ _defer_to_matchpy st' = false)
  /\
  (exists st',
      optimize sample_repr sample_getitem 3
               (VExpr (Op Add [sample_df; sample_df])) registered_state
      = Some (Ok (VExpr (Op Mul [VInt 2; sample_df])), st')
      /\ _defer_to_matchpy st' = false).
Proof.
  split.
  - assert (Hrun : optimize sample_repr sample_getitem 3 raising_tree
                            registered_state
                   = Some (Raise TypeError, registered_state))
      by (vm_compute; reflexivity).
    exists registered_state. split; [exact Hrun|].
    exact (optimize_restores_equality_mode sample_repr sample_getitem 3
             raising_tree registered_state registered_state
             (Raise TypeError) Hrun).
  - assert (Hrun : optimize sample_repr sample_getitem 3
                     (VExpr (Op Add [sample_df; sample_df])) registered_state
                   = Some (Ok (VExpr (Op Mul [VInt 2; sample_df])),
                           registered_state))
      by (vm_compute; reflexivity).
    exists registered_state. split; [exact Hrun|].
    exact (optimize_restores_equality_mode sample_repr sample_getitem 3
             _ registered_state registered_state _ Hrun).
Defined.

(** ** [optimize] in terms of one rewrite pass *)

(** What the loop returns once a pass has produced the tree [N]. *)
Definition final (py_repr : value -> string) (N : value) : result value :=
  match value_str py_repr N with
  | Raise x => Raise x
  | Ok _ => Ok N
  end.

(** Two fuel-indexed runs with the same outcomes. *)
Definition same_outcome {A} (run1 run2 : nat -> option A) : Prop :=
  forall o, (exists n, run1 n = Some o) <-> (exists n, run2 n = Some o).

Section Passes.
Variable py_repr : value -> string.
Variable py_getitem : value -> value -> result value.

(** After a pass that produced a normal form the loop ends at once or
    after one empty pass, with the same result either way. *)
Lemma optimize_loop_after_pass n N prev sp st :
  find_redex (replacement_rules st) N = None ->
  value_str py_repr prev = Ok sp ->
  (1 <= n ->
   optimize_loop py_repr py_getitem n N prev st
   = Some (final py_repr N, st)) /\
  (forall out, optimize_loop py_repr py_getitem n N prev st = Some out ->
               out = (final py_repr N, st)).
Proof.
  intros Hnf Hp. unfold final.
  destruct n as [|n]; simpl; rewrite Hp.
  - split; [lia|]. intros out.
    destruct (value_str py_repr N) as [s|x]; [|congruence].
    destruct (String.eqb s sp); simpl; congruence.
  - destruct (value_str py_repr N) as [s|x] eqn:Hs; [|split; congruence].
    destruct (String.eqb s sp); simpl; [split; congruence|].
    unfold replace_all. rewrite replace_loop_normal_input by exact Hnf.
    assert (Hend : optimize_loop py_repr py_getitem n N N st
                   = Some (Ok N, st)).
    { destruct n; simpl; rewrite Hs, String.eqb_refl; reflexivity. }
    rewrite Hend. split; congruence.
Qed.

(** One turn of the loop when the printed forms differ. *)
Lemma optimize_loop_S n expr last st s sl :
  value_str py_repr expr = Ok s ->
  value_str py_repr last = Ok sl ->
  String.eqb s sl = false ->
  optimize_loop py_repr py_getitem (S n) expr last st
  = match replace_all py_getitem n expr st with
    | None => None
    | Some (Raise x, st') => Some (Raise x, st')
    | Some (Ok expr', st') =>
        optimize_loop py_repr py_getitem n expr' expr st'
    end.
Proof.
  intros Hs Hl He. cbn [optimize_loop]. rewrite Hs, Hl, He. reflexivity.
Qed.

(** In a fully registered state, [optimize] on a tree that prints (and
    not as ["None"]) ends exactly when its first pass ends, with the
    exception of the pass or with the normal form it produced. *)
Lemma optimize_via_pass T s st out :
  all_seen st ->
  value_str py_repr T = Ok s -> s <> "None" ->
  (exists n, optimize py_repr py_getitem n T st = Some out) <->
  (exists n res,
      replace_loop py_getitem n (replacement_rules st) T (set_defer true st)
      = Some (res, set_defer true st) /\
      out = (match res with
             | Raise x => Raise x
             | Ok N => final py_repr N
             end, set_defer false (set_defer true st))).
Proof.
  intros Hall Hs Hne.
  pose proof (all_seen_set_defer true st Hall) as Hall1.
  assert (Hneq : String.eqb s "None" = false)
    by (now apply String.eqb_neq).
  split.
  - intros [n Hopt]. unfold optimize in Hopt.
    destruct n as [|n]; simpl in Hopt; rewrite Hs, Hneq in Hopt;
      simpl in Hopt; [discriminate|].
    unfold replace_all in Hopt. simpl in Hopt.
    destruct (replace_loop py_getitem n (replacement_rules st) T
                           (set_defer true st))
      as [[res st1]|] eqn:Hpass; [|discriminate].
    pose proof (replace_loop_state _ _ _ _ _ _ _ Hall1 Hpass). subst st1.
    exists n, res. split; auto.
    destruct res as [N|x].
    + pose proof (replace_loop_normal_output _ _ _ _ _ _ _ Hpass) as Hnf.
      destruct (optimize_loop py_repr py_getitem n N T (set_defer true st))
        as [[r st2]|] eqn:Hloop; [|discriminate].
      destruct (optimize_loop_after_pass n N T s (set_defer true st) Hnf Hs)
        as [_ Huniq].
      specialize (Huniq _ Hloop). inversion Huniq; subst.
      now inversion Hopt.
    + now inversion Hopt.
  - intros [n [res [Hpass ->]]].
    exists (S (S n)). unfold optimize.
    rewrite (optimize_loop_S (S n) T VNone _ s "None") by auto.
    unfold replace_all.
    change (replacement_rules (set_defer true st))
      with (replacement_rules st).
    rewrite (replace_loop_mono _ _ _ _ _ _ Hpass (S n)) by lia.
    destruct res as [N|x]; auto.
    pose proof (replace_loop_normal_output _ _ _ _ _ _ _ Hpass) as Hnf.
    destruct (optimize_loop_after_pass (S n) N T s (set_defer true st) Hnf Hs)
      as [Hrun _].
    rewrite Hrun by lia. reflexivity.
Qed.

(** A tree whose printing raises makes [optimize] raise at once. *)
Lemma optimize_unprintable T x st n :
  value_str py_repr T = Raise x ->
  optimize py_repr py_getitem n T st
  = Some (Raise x, set_defer false (set_defer true st)).
Proof.
  intros H. unfold optimize. destruct n; simpl; rewrite H; reflexivity.
Qed.

(** A rule that fires at the root: the pass goes on from its result. *)
Lemma replace_loop_root_step n rules T r sub T' st :
  first_match rules T = Some (r, sub) ->
  replacement py_getitem r sub st = (Ok T', st) ->
  replace_loop py_getitem (S n) rules T st
  = replace_loop py_getitem n rules T' st.
Proof.
  intros Hm Hr. simpl.
  assert (Hf : find_redex rules T = Some ([], r, sub)).
  { destruct T; simpl; rewrite Hm; reflexivity. }
  rewrite Hf. unfold mbind. rewrite Hr. simpl. reflexivity.
Qed.

(** If the first rewrite of [T] is a root step to [T'], and both print
    alike as far as exceptions go, [optimize] cannot tell [T] from
    [T']. *)
Lemma optimize_root_step (T T' : expr) r sub st :
  all_seen st ->
  first_match (replacement_rules st) (VExpr T) = Some (r, sub) ->
  fst (replacement py_getitem r sub (set_defer true st)) = Ok (VExpr T') ->
  (forall x, expr_str py_repr T = Raise x <-> expr_str py_repr T' = Raise x) ->
  same_outcome (fun n => optimize py_repr py_getitem n (VExpr T) st)
               (fun n => optimize py_repr py_getitem n (VExpr T') st).
Proof.
  intros Hall Hm Hr Hstr out.
  pose proof (all_seen_set_defer true st Hall) as Hall1.
  assert (Hr' : replacement py_getitem r sub (set_defer true st)
                = (Ok (VExpr T'), set_defer true st)).
  { pose proof (stable_replacement py_getitem r sub _ Hall1) as Hst.
    unfold stable in Hst.
    destruct (replacement py_getitem r sub (set_defer true st)) as [res st1].
    simpl in *. congruence. }
  assert (Hstep : forall n,
             replace_loop py_getitem (S n) (replacement_rules st) (VExpr T)
                          (set_defer true st)
             = replace_loop py_getitem n (replacement_rules st) (VExpr T')
                            (set_defer true st)).
  { intros n. eapply replace_loop_root_step; eauto. }
  destruct (expr_str py_repr T) as [s|x] eqn:Hs.
  - destruct (expr_str py_repr T') as [s'|x'] eqn:Hs'.
    2:{ discriminate (proj2 (Hstr x') eq_refl). }
    rewrite (optimize_via_pass (VExpr T) s st out Hall Hs).
    2:{ intros ->. now apply (expr_str_not_None py_repr T). }
    rewrite (optimize_via_pass (VExpr T') s' st out Hall Hs').
    2:{ intros ->. now apply (expr_str_not_None py_repr T'). }
    split; intros [n [res [Hpass Hout]]].
    + destruct n as [|n].
      { assert (Hf : find_redex (replacement_rules st) (VExpr T)
                     = Some ([], r, sub)).
        { destruct T. simpl. now rewrite Hm. }
        cbn [replace_loop] in Hpass. rewrite Hf in Hpass. discriminate. }
      rewrite Hstep in Hpass. eauto.
    + exists (S n), res. rewrite Hstep. auto.
  - pose proof (proj1 (Hstr x) eq_refl) as Hs'.
    split; intros [n Hopt]; exists n.
    + rewrite (optimize_unprintable (VExpr T) x st n Hs) in Hopt.
      now rewrite (optimize_unprintable (VExpr T') x st n Hs').
    + rewrite (optimize_unprintable (VExpr T') x st n Hs') in Hopt.
      now rewrite (optimize_unprintable (VExpr T) x st n Hs).
Qed.
End Passes.

(** ** Which rule fires at a node *)

(** The class at the root of a rule's pattern. *)
Definition pattern_head (r : rule_id) : kind :=
  match r with
  | FilterProjectionRule | BinopProjectionRule _ | ParquetProjectionRule =>
      Projection
  | AddSelfRule => Add
  | MulFoldRule => Mul
  | ParquetPushdownRule _ _ => Filter
  end.

(** The bindings with which a rule applies to a subject, if it does. *)
Definition applies (r : rule_id) (v : value) : option subst :=
  match pmatch (pattern r) v [] with
  | Some s => if constraint r s then Some s else None
  | None => None
  end.

Lemma applies_head_mismatch r k ops :
  pattern_head r <> k -> applies r (VExpr (Op k ops)) = None.
Proof.
  intros Hne. unfold applies.
  assert (Hk : kind_eqb (pattern_head r) k = false).
  { destruct (kind_eqb (pattern_head r) k) eqn:E; auto.
    apply kind_eqb_eq in E. contradiction. }
  destruct r; cbn [pattern pmatch pattern_head] in *; rewrite Hk; reflexivity.
Qed.

Lemma applies_literal r v : is_Expr v = false -> applies r v = None.
Proof.
  intros H. unfold applies.
  destruct r; destruct v; try discriminate; reflexivity.
Qed.

Lemma first_match_applies rules v :
  first_match rules v =
  match rules with
  | [] => None
  | r :: rest =>
      match applies r v with
      | Some s => Some (r, s)
      | None => first_match rest v
      end
  end.
Proof.
  destruct rules as [|r rest]; simpl; auto. unfold applies.
  destruct (pmatch (pattern r) v []) as [s|]; auto.
  destruct (constraint r s); auto.
Qed.

(** The only applicable rule of the list is the one that fires. *)
Lemma first_match_only rules v r0 sub :
  In r0 rules ->
  applies r0 v = Some sub ->
  (forall r, In r rules -> r <> r0 -> applies r v = None) ->
  first_match rules v = Some (r0, sub).
Proof.
  induction rules as [|r rest IH]; intros Hin Happ Hothers; [destruct Hin|].
  rewrite first_match_applies.
  destruct (rule_eq_dec r r0) as [->|Hne].
  - now rewrite Happ.
  - rewrite (Hothers r) by (auto; now left).
    apply IH; auto.
    + destruct Hin; [contradiction|assumption].
    + intros r' Hr'. apply Hothers. now right.
Qed.

Lemma first_match_none rules v :
  (forall r, In r rules -> applies r v = None) ->
  first_match rules v = None.
Proof.
  induction rules as [|r rest IH]; intros H; auto.
  rewrite first_match_applies, (H r) by now left.
  apply IH. intros r' Hr'. apply H. now right.
Qed.

(** The search below the root, operand by operand. *)
Fixpoint find_in_operands (rules : list rule_id) (i : nat)
         (ops : list value) : option (list nat * rule_id * subst) :=
  match ops with
  | [] => None
  | o :: os =>
      match find_redex rules o with
      | Some (pos, r, s) => Some (i :: pos, r, s)
      | None => find_in_operands rules (S i) os
      end
  end.

(** The search through the items of a dict. *)
Fixpoint find_in_items (rules : list rule_id) (i : nat)
         (d : list (value * value)) : option (list nat * rule_id * subst) :=
  match d with
  | [] => None
  | (k, o) :: rest =>
      match first_match rules (VTuple [k; o]) with
      | Some (r, s) => Some ([i], r, s)
      | None =>
          match find_redex rules k with
          | Some (pos, r, s) => Some (i :: 0%nat :: pos, r, s)
          | None =>
              match find_redex rules o with
              | Some (pos, r, s) => Some (i :: 1%nat :: pos, r, s)
              | None => find_in_items rules (S i) rest
              end
          end
      end
  end.

(** The items of a dict are searched like a list of 2-tuples. *)
Lemma find_in_items_operands rules i d :
  find_in_items rules i d
  = find_in_operands rules i (map (fun kv => VTuple [fst kv; snd kv]) d).
Proof.
  revert i. induction d as [|[k o] rest IH]; intros i; auto.
  cbn [map find_in_operands find_in_items fst snd find_redex]. rewrite IH.
  destruct (first_match rules (VTuple [k; o])) as [[r s]|]; auto.
  destruct (find_redex rules k) as [[[pos r] s]|]; auto.
  destruct (find_redex rules o) as [[[pos r] s]|]; auto.
Qed.

Lemma find_redex_node rules k ops :
  find_redex rules (VExpr (Op k ops)) =
  match first_match rules (VExpr (Op k ops)) with
  | Some (r, s) => Some ([], r, s)
  | None => find_in_operands rules 0 ops
  end.
Proof.
  cbn [find_redex].
  destruct (first_match rules (VExpr (Op k ops))) as [[r s]|]; auto.
  generalize 0%nat. induction ops as [|o os IH]; intros i; simpl; auto.
  destruct (find_redex rules o) as [[[pos r] s]|]; auto.
Qed.

Lemma find_redex_container rules v :
  is_Expr v = false ->
  find_redex rules v =
  match v with
  | VList l | VTuple l => find_in_operands rules 0 l
  | VDict d =>
      find_in_operands rules 0 (map (fun kv => VTuple [fst kv; snd kv]) d)
  | _ => None
  end.
Proof.
  intros H.
  assert (Hm : first_match rules v = None).
  { apply first_match_none. intros r _. now apply applies_literal. }
  destruct v as [| | | |l|l|d|e]; try discriminate;
    cbn [find_redex]; rewrite Hm; auto; clear Hm H.
  - generalize 0%nat. induction l as [|o os IH]; intros i; simpl; auto.
    destruct (find_redex rules o) as [[[pos r] s]|]; auto.
  - generalize 0%nat. induction l as [|o os IH]; intros i; simpl; auto.
    destruct (find_redex rules o) as [[[pos r] s]|]; auto.
  - rewrite <- find_in_items_operands.
    match goal with
    | |- ?f 0%nat d = _ =>
        enough (G : forall i, f i d = find_in_items rules i d) by apply G
    end.
    induction d as [|[k o] rest IH]; intros i; auto.
    cbn [find_in_items]. rewrite <- IH. reflexivity.
Qed.

Lemma find_in_operands_none rules i ops :
  Forall (fun o => find_redex rules o = None) ops ->
  find_in_operands rules i ops = None.
Proof.
  intros H. revert i. induction H as [|o os Ho _ IH]; intros i; simpl; auto.
  now rewrite Ho.
Qed.

Lemma node_free_not_Expr v : node_free v = true -> is_Expr v = false.
Proof. destruct v as [| | | | | | |[k ops]]; auto; discriminate. Qed.

Lemma flat_map_nil {A B} (f : A -> list B) l :
  flat_map f l = [] -> Forall (fun x => f x = []) l.
Proof.
  induction l as [|x l IH]; simpl; intros H; constructor.
  - now apply app_eq_nil in H.
  - apply IH. now apply app_eq_nil in H.
Qed.

Lemma node_free_items l :
  node_free (VList l) = true -> Forall (fun o => node_free o = true) l.
Proof.
  unfold node_free. simpl. intros H.
  destruct (flat_map node_kinds l) eqn:E; [|discriminate].
  apply flat_map_nil in E. eapply Forall_impl; [|exact E].
  intros o Ho. simpl in Ho. now rewrite Ho.
Qed.

(** No rule applies at or inside a value that holds no node. *)
Lemma find_redex_node_free rules (v : value) :
  node_free v = true -> find_redex rules v = None.
Proof.
  induction v using value_expr_ind
    with (Q := fun e => node_free (VExpr e) = true ->
                        find_redex rules (VExpr e) = None);
    intros Hfree; try discriminate Hfree;
    try (rewrite find_redex_container by reflexivity; auto).
  - apply find_in_operands_none. apply node_free_items in Hfree.
    rewrite Forall_forall in *. auto.
  - apply find_in_operands_none.
    assert (Hl : node_free (VList l) = true) by exact Hfree.
    apply node_free_items in Hl. rewrite Forall_forall in *. auto.
  - apply find_in_operands_none.
    unfold node_free in Hfree. simpl in Hfree.
    destruct (flat_map _ d) eqn:E; [|discriminate].
    apply flat_map_nil in E. rewrite Forall_forall in *.
    intros o Ho. apply in_map_iff in Ho as [[k x] [<- Hin]].
    destruct (H _ Hin) as [Hk Hx].
    specialize (E _ Hin). simpl in E. apply app_eq_nil in E as [Ek Ex].
    simpl in Hk, Hx.
    rewrite find_redex_container by reflexivity.
    cbn [find_in_operands fst snd].
    rewrite Hk, Hx; auto; unfold node_free; simpl;
      now rewrite ?Ek, ?Ex.
  - destruct e. discriminate Hfree.
Qed.

(** [optimize] on a tree in which no rule applies returns it. *)
Lemma optimize_normal py_repr py_getitem (T : expr) s st n :
  find_redex (replacement_rules st) (VExpr T) = None ->
  expr_str py_repr T = Ok s ->
  1 <= n ->
  optimize py_repr py_getitem n (VExpr T) st
  = Some (Ok (VExpr T), set_defer false (set_defer true st)).
Proof.
  intros Hnf Hs Hn. destruct n as [|n]; [lia|]. unfold optimize.
  rewrite (optimize_loop_S py_repr py_getitem n (VExpr T) VNone _ s "None");
    auto.
  2:{ apply String.eqb_neq. intros ->.
      now apply (expr_str_not_None py_repr T). }
  unfold replace_all. rewrite replace_loop_normal_input by exact Hnf.
  assert (Hend : optimize_loop py_repr py_getitem n (VExpr T) (VExpr T)
                               (set_defer true st)
                 = Some (Ok (VExpr T), set_defer true st)).
  { destruct n; simpl; rewrite Hs, String.eqb_refl; reflexivity. }
  now rewrite Hend.
Qed.

Section RootStep.
Variable py_repr : value -> string.
Variable py_getitem : value -> value -> result value.

(** A tree whose first rewrite is a root step to a tree that neither
    the rules of the pass nor the rules registered by then can
    rewrite: [optimize] returns that tree for every fuel from 2 on, in
    the state the rewrite function leaves. *)
Lemma optimize_root_step_to_normal_in (T T' : expr) r sub st st2 s s' n :
  first_match (replacement_rules st) (VExpr T) = Some (r, sub) ->
  replacement py_getitem r sub (set_defer true st) = (Ok (VExpr T'), st2) ->
  find_redex (replacement_rules st) (VExpr T') = None ->
  find_redex (replacement_rules st2) (VExpr T') = None ->
  expr_str py_repr T = Ok s ->
  expr_str py_repr T' = Ok s' ->
  2 <= n ->
  optimize py_repr py_getitem n (VExpr T) st
  = Some (Ok (VExpr T'), set_defer false st2).
Proof.
  intros Hm Hr Hnf Hnf2 Hs Hs' Hn.
  destruct n as [|[|n]]; try lia.
  unfold optimize.
  rewrite (optimize_loop_S py_repr py_getitem (S n) (VExpr T) VNone _ s "None");
    auto.
  2:{ apply String.eqb_neq. intros ->.
      now apply (expr_str_not_None py_repr T). }
  unfold replace_all.
  change (replacement_rules (set_defer true st)) with (replacement_rules st).
  assert (Hf : find_redex (replacement_rules st) (VExpr T)
               = Some ([], r, sub)).
  { destruct T. rewrite find_redex_node, Hm. reflexivity. }
  cbn [replace_loop]. rewrite Hf. unfold mbind at 1. rewrite Hr.
  cbn [replace_at ret].
  rewrite replace_loop_normal_input by apply Hnf.
  destruct (optimize_loop_after_pass py_repr py_getitem (S n) (VExpr T')
              (VExpr T) s st2 Hnf2 Hs) as [Hrun _].
  rewrite Hrun by lia. unfold final. simpl. rewrite Hs'. reflexivity.
Qed.

(** The same when no rule at all can rewrite the result. *)
Lemma optimize_root_step_to_normal (T T' : expr) r sub st st2 s s' n :
  first_match (replacement_rules st) (VExpr T) = Some (r, sub) ->
  replacement py_getitem r sub (set_defer true st) = (Ok (VExpr T'), st2) ->
  (forall rules, find_redex rules (VExpr T') = None) ->
  expr_str py_repr T = Ok s ->
  expr_str py_repr T' = Ok s' ->
  2 <= n ->
  optimize py_repr py_getitem n (VExpr T) st
  = Some (Ok (VExpr T'), set_defer false st2).
Proof.
  intros Hm Hr Hnf. eapply optimize_root_step_to_normal_in; eauto.
Qed.
End RootStep.

(** ** The algebraic rules *)





(** *** A tree on which [X + X] and [2 * X] are optimized differently *)

(** A frame whose inner projection selects by a node: the class is
    called directly, [Projection(a - a, a > 1)], where subscripting
    would have built a [Filter]. *)
Definition selected_twice : value :=
  VExpr (Op from_pandas
            [VExpr (Op Projection
                       [VExpr (Op Projection
                                  [VExpr (Op Sub [sample_df; sample_df]);
                                   VExpr (Op GT [sample_df; VInt 1])]);
                        VStr "c"]);
             VInt 1]).

(** What one pass makes of it with the rules of [Sub] alone, and what
    a second pass makes of that once the rule of [Filter] is there. *)
Definition selected_after_one_pass : value :=
  let filtered :=
    VExpr (Op Filter [sample_df; VExpr (Op GT [sample_df; VInt 1])]) in
  VExpr (Op from_pandas
            [VExpr (Op Sub [VExpr (Op Projection [filtered; VStr "c"]);
                            VExpr (Op Projection [filtered; VStr "c"])]);
             VInt 1]).

Definition selected_after_two_passes : value :=
  let projected :=
    VExpr (Op Filter [VExpr (Op Projection [sample_df; VStr "c"]);
                      VExpr (Op GT [sample_df; VInt 1])]) in
  VExpr (Op from_pandas [VExpr (Op Sub [projected; projected]); VInt 1]).

(** [a = from_pandas(None)];
    [X = from_pandas(Projection(Projection(a - a, a > 1), "c"))];
    the trees [X + X] and [2 * X]. *)
Definition doubling_example : M (value * value) :=
  a <~ call from_pandas [VNone] [] ;;
  difference <~ __sub__ a (VExpr a) ;;
  condition <~ __gt__ a (VInt 1) ;;
  inner <~ call Projection [VExpr difference; VExpr condition] [] ;;
  outer <~ call Projection [VExpr inner; VStr "c"] [] ;;
  X <~ call from_pandas [VExpr outer] [] ;;
  sum <~ __add__ X (VExpr X) ;;
  double <~ __rmul__ X (VInt 2) ;;
  ret (VExpr sum, VExpr double).

(** The state of a process that has run [doubling_example] only, and
    that state once [Filter] has been instantiated as well. *)
Definition after_doubling : state :=
  mkState [Mul; Add; GT; Projection; Sub; from_pandas]
          [BinopProjectionRule Sub; BinopProjectionRule GT; AddSelfRule;
           BinopProjectionRule Add; MulFoldRule; BinopProjectionRule Mul]
          false.

Definition after_doubling_optimized : state :=
  mkState [Filter; Mul; Add; GT; Projection; Sub; from_pandas]
          [BinopProjectionRule Sub; BinopProjectionRule GT; AddSelfRule;
           BinopProjectionRule Add; MulFoldRule; BinopProjectionRule Mul;
           FilterProjectionRule]
          false.

(** C6.  [optimize(X + X)] and [optimize(2 * X)] can differ.  Run in a
    fresh process, [doubling_example] builds [X + X] and [2 * X] for
    [X = selected_twice].  The first pass over either tree
    instantiates [Filter] for the first time.  [optimize(2 * X)]
    stops after that pass, the printed form being ["2 * df"] before
    and after it, and returns [2 * selected_after_one_pass], in which
    the rule of [Filter] still applies.  [optimize(X + X)], whose
    first pass changes the printed form from ["df + df"], runs a
    second pass and returns [2 * selected_after_two_passes]. *)
Theorem self_addition_differs_from_doubling
        (py_repr : value -> string)
        (py_getitem : value -> value -> result value) :
  let X := selected_twice in
  doubling_example initial_state
  = (Ok (VExpr (Op Add [X; X]), VExpr (Op Mul [VInt 2; X])),
     after_doubling) /\
  optimize py_repr py_getitem 5 (VExpr (Op Add [X; X])) after_doubling
  = Some (Ok (VExpr (Op Mul [VInt 2; selected_after_two_passes])),
          after_doubling_optimized) /\
  optimize py_repr py_getitem 5 (VExpr (Op Mul [VInt 2; X])) after_doubling
  = Some (Ok (VExpr (Op Mul [VInt 2; selected_after_one_pass])),
          after_doubling_optimized) /\
  value_str py_repr (VExpr (Op Mul [VInt 2; X])) = Ok "2 * df" /\
  value_str py_repr (VExpr (Op Mul [VInt 2; selected_after_one_pass]))
  = Ok "2 * df" /\
  (exists pos sub,
      find_redex (replacement_rules after_doubling_optimized)
                 (VExpr (Op Mul [VInt 2; selected_after_one_pass]))
      = Some (pos, FilterProjectionRule, sub)) /\
  selected_after_two_passes <> selected_after_one_pass.
Proof.
  cbv zeta. repeat split; try (vm_compute; reflexivity).
  - eexists. eexists. vm_compute. reflexivity.
  - discriminate.
Qed.

Lemma applies_MulFold a b c :
  applies MulFoldRule (VExpr (Op Mul [a; VExpr (Op Mul [b; c])]))
  = if is_Number a && is_Number b
    then Some [("c", c); ("b", b); ("a", a)] else None.
Proof. unfold applies. cbn. reflexivity. Qed.

Lemma first_match_Mul rules a b :
  first_match rules (VExpr (Op Mul [a; b])) =
  if existsb (fun r => if rule_eq_dec r MulFoldRule then true else false)
             rules
  then match applies MulFoldRule (VExpr (Op Mul [a; b])) with
       | Some s => Some (MulFoldRule, s)
       | None => None
       end
  else None.
Proof.
  induction rules as [|r rest IH]; auto.
  rewrite first_match_applies. cbn [existsb].
  destruct (rule_eq_dec r MulFoldRule) as [->|Hne]; cbn [orb].
  - destruct (applies MulFoldRule _) as [s|]; auto.
    rewrite IH. destruct (existsb _ rest); auto.
  - rewrite applies_head_mismatch, IH; auto.
    destruct r; try contradiction; discriminate.
Qed.

Lemma existsb_MulFold rules :
  In MulFoldRule rules ->
  existsb (fun r => if rule_eq_dec r MulFoldRule then true else false) rules
  = true.
Proof.
  intros H. apply existsb_exists. exists MulFoldRule. split; [exact H|].
  destruct (rule_eq_dec MulFoldRule MulFoldRule); congruence.
Qed.

(** Printed form of a number. *)
Lemma value_str_number py_repr a x :
  num_val a = Some x -> exists s, value_str py_repr a = Ok s.
Proof. destruct a; try discriminate; simpl; eauto. Qed.

(** C5 (as amended).  Where the class [Mul] has been instantiated, so
    that its rule is registered:
    (1) at [a * (b * c)] a rule fires exactly when [a] and [b] are both
    numbers, and it is the Mul rule;
    (2) its rewrite function returns [(a*b) * c];
    (3) for numbers [a] and [b] and a tree [X] such that no registered
    rule applies in [(a*b) * X], [optimize(a * (b * X))] returns
    [(a*b) * X], and so does [optimize((a*b) * X)]; in particular for
    3, 4 and 12;
    (4) in a state where every class is registered,
    [optimize(a * (b * X))] and [optimize((a*b) * X)] have the same
    outcome for numbers [a], [b] and any [X]: the same tree, the same
    exception, or no end for either;
    (5) when [X] is not a number, no rule fires at the root of
    [X * (4 * Y)], and [optimize] returns that tree unchanged provided
    no rule applies inside [X] or inside [4 * Y], nodes held by list,
    tuple and dict operands included. *)
Theorem mul_constant_folding
        (py_repr : value -> string)
        (py_getitem : value -> value -> result value)
        (st : state) :
  mem_kind Mul (seen st) = true ->
  In MulFoldRule (replacement_rules st) ->
  (forall a b c,
      first_match (replacement_rules st)
                  (VExpr (Op Mul [a; VExpr (Op Mul [b; c])]))
      = if is_Number a && is_Number b
        then Some (MulFoldRule, [("c", c); ("b", b); ("a", a)])
        else None) /\
  (forall a b c x y,
      num_val a = Some x -> num_val b = Some y ->
      replacement py_getitem MulFoldRule
                  [("c", c); ("b", b); ("a", a)] st
      = (Ok (VExpr (Op Mul [VInt (x * y); c])), st)) /\
  (forall a b X x y s n,
      num_val a = Some x -> num_val b = Some y ->
      find_redex (replacement_rules st) (VExpr (Op Mul [VInt (x * y); X]))
      = None ->
      value_str py_repr X = Ok s ->
      2 <= n ->
      optimize py_repr py_getitem n
               (VExpr (Op Mul [a; VExpr (Op Mul [b; X])])) st
      = Some (Ok (VExpr (Op Mul [VInt (x * y); X])),
              set_defer false (set_defer true st)) /\
      optimize py_repr py_getitem n
               (VExpr (Op Mul [VInt (x * y); X])) st
      = Some (Ok (VExpr (Op Mul [VInt (x * y); X])),
              set_defer false (set_defer true st))) /\
  (all_seen st ->
   forall a b X x y,
      num_val a = Some x -> num_val b = Some y ->
      same_outcome
        (fun n => optimize py_repr py_getitem n
                    (VExpr (Op Mul [a; VExpr (Op Mul [b; X])])) st)
        (fun n => optimize py_repr py_getitem n
                    (VExpr (Op Mul [VInt (x * y); X])) st)) /\
  (forall X Y s n,
      is_Number X = false ->
      find_redex (replacement_rules st) X = None ->
      find_redex (replacement_rules st) (VExpr (Op Mul [VInt 4; Y])) = None ->
      expr_str py_repr (Op Mul [X; VExpr (Op Mul [VInt 4; Y])]) = Ok s ->
      1 <= n ->
      first_match (replacement_rules st)
                  (VExpr (Op Mul [X; VExpr (Op Mul [VInt 4; Y])])) = None /\
      optimize py_repr py_getitem n
               (VExpr (Op Mul [X; VExpr (Op Mul [VInt 4; Y])])) st
      = Some (Ok (VExpr (Op Mul [X; VExpr (Op Mul [VInt 4; Y])])),
              set_defer false (set_defer true st))).
Proof.
  intros Hseen Hin.
  assert (Hfm : forall a b c,
             first_match (replacement_rules st)
                         (VExpr (Op Mul [a; VExpr (Op Mul [b; c])]))
             = if is_Number a && is_Number b
               then Some (MulFoldRule, [("c", c); ("b", b); ("a", a)])
               else None).
  { intros a b c. rewrite first_match_Mul, existsb_MulFold by exact Hin.
    rewrite applies_MulFold. destruct (is_Number a && is_Number b); auto. }
  assert (Hrep : forall a b c x y st0,
             mem_kind Mul (seen st0) = true ->
             num_val a = Some x -> num_val b = Some y ->
             replacement py_getitem MulFoldRule
                         [("c", c); ("b", b); ("a", a)] st0
             = (Ok (VExpr (Op Mul [VInt (x * y); c])), st0)).
  { intros a b c x y st0 Hs0 Ha Hb. cbn. unfold mbind. cbn.
    rewrite Ha, Hb. unfold call. rewrite register_seen by exact Hs0.
    reflexivity. }
  assert (Hnum : forall a b x y,
             num_val a = Some x -> num_val b = Some y ->
             is_Number a && is_Number b = true).
  { intros a b x y Ha Hb.
    destruct a; try discriminate; destruct b; try discriminate;
      reflexivity. }
  split; [exact Hfm|]. split; [intros; now apply Hrep|].
  split; [|split].
  - intros a b X x y s n Ha Hb Hnf HX Hn.
    pose proof (Hfm a b X) as Hm. rewrite (Hnum a b x y Ha Hb) in Hm.
    destruct (value_str_number py_repr a x Ha) as [sa Hsa].
    destruct (value_str_number py_repr b y Hb) as [sb Hsb].
    assert (Hs' : exists s', expr_str py_repr (Op Mul [VInt (x * y); X])
                             = Ok s').
    { simpl. rewrite HX. simpl. eauto. }
    destruct Hs' as [s' Hs'].
    split.
    + apply (optimize_root_step_to_normal_in py_repr py_getitem
               (Op Mul [a; VExpr (Op Mul [b; X])])
               (Op Mul [VInt (x * y); X]) MulFoldRule
               [("c", X); ("b", b); ("a", a)] st (set_defer true st)
               (sa ++ " * " ++ sb ++ " * " ++ s) s' n); auto.
      * simpl. rewrite Hsa. simpl. rewrite Hsb, HX. reflexivity.
    + apply optimize_normal with (s := s'); auto. lia.
  - intros Hall a b X x y Ha Hb.
    pose proof (Hfm a b X) as Hm. rewrite (Hnum a b x y Ha Hb) in Hm.
    apply (optimize_root_step py_repr py_getitem
             (Op Mul [a; VExpr (Op Mul [b; X])])
             (Op Mul [VInt (x * y); X]) MulFoldRule
             [("c", X); ("b", b); ("a", a)] st Hall Hm).
    + now rewrite (Hrep a b X x y (set_defer true st) Hseen Ha Hb).
    + intros e. simpl.
      destruct a; try discriminate; destruct b; try discriminate; simpl;
        destruct (value_str py_repr X); simpl; split; congruence.
  - intros X Y s n HX HnfX HnfY Hs Hn.
    assert (Hroot : first_match (replacement_rules st)
                      (VExpr (Op Mul [X; VExpr (Op Mul [VInt 4; Y])]))
                    = None).
    { rewrite Hfm, HX. reflexivity. }
    split; [exact Hroot|].
    apply optimize_normal with (s := s); auto.
    rewrite find_redex_node, Hroot. cbn [find_in_operands].
    now rewrite HnfX, HnfY.
Qed.

Lemma mul_constant_folding_witness :
  mem_kind Mul (seen registered_state) = true /\
  In MulFoldRule (replacement_rules registered_state) /\
  optimize sample_repr sample_getitem 2
           (VExpr (Op Mul [VInt 3; VExpr (Op Mul [VInt 4; sample_df])]))
           registered_state
  = Some (Ok (VExpr (Op Mul [VInt 12; sample_df])), registered_state) /\
  optimize sample_repr sample_getitem 2
           (VExpr (Op Mul [VInt 12; sample_df])) registered_state
  = Some (Ok (VExpr (Op Mul [VInt 12; sample_df])), registered_state) /\
  same_outcome
    (fun n => optimize sample_repr sample_getitem n
                (VExpr (Op Mul [VInt 3; VExpr (Op Mul [VInt 4; sample_df])]))
                registered_state)
    (fun n => optimize sample_repr sample_getitem n
                (VExpr (Op Mul [VInt 12; sample_df])) registered_state) /\
  optimize sample_repr sample_getitem 1
           (VExpr (Op Mul [sample_df;
                           VExpr (Op Mul [VInt 4; sample_df])]))
           registered_state
  = Some (Ok (VExpr (Op Mul [sample_df;
                             VExpr (Op Mul [VInt 4; sample_df])])),
          registered_state).
Proof.
  assert (Hin : In MulFoldRule (replacement_rules registered_state)).
  { vm_compute. repeat (first [left; reflexivity | right]). }
  assert (Hseen : mem_kind Mul (seen registered_state) = true)
    by (vm_compute; reflexivity).
  pose proof (mul_constant_folding sample_repr sample_getitem
                registered_state Hseen Hin)
    as [_ [_ [Hfold [Hsame Hkeep]]]].
  split; [exact Hseen|]. split; [exact Hin|].
  assert (Hnf : find_redex (replacement_rules registered_state)
                           (VExpr (Op Mul [VInt (3 * 4); sample_df])) = None)
    by (vm_compute; reflexivity).
  destruct (Hfold (VInt 3) (VInt 4) sample_df 3%Z 4%Z "df" 2%nat
                  eq_refl eq_refl Hnf eq_refl (le_n 2)) as [H1 H2].
  split; [exact H1|]. split; [exact H2|]. split.
  - exact (Hsame registered_state_all_seen
                 (VInt 3) (VInt 4) sample_df 3%Z 4%Z eq_refl eq_refl).
  - refine (proj2 (Hkeep sample_df sample_df "df * 4 * df" 1%nat
                     eq_refl _ _ _ (le_n 1))).
    + vm_compute. reflexivity.
    + vm_compute. reflexivity.
    + vm_compute. reflexivity.
Defined.

(** [a = from_pandas(None)];
    [X = from_pandas(Projection(Projection(a - a, a > 1), "c"))];
    the trees [3 * (4 * X)] and [12 * X]. *)
Definition folding_example : M (value * value) :=
  a <~ call from_pandas [VNone] [] ;;
  difference <~ __sub__ a (VExpr a) ;;
  condition <~ __gt__ a (VInt 1) ;;
  inner <~ call Projection [VExpr difference; VExpr condition] [] ;;
  outer <~ call Projection [VExpr inner; VStr "c"] [] ;;
  X <~ call from_pandas [VExpr outer] [] ;;
  four <~ __rmul__ X (VInt 4) ;;
  nested <~ __rmul__ four (VInt 3) ;;
  folded <~ __rmul__ X (VInt 12) ;;
  ret (VExpr nested, VExpr folded).

(** The state of a process that has run [folding_example] only, and
    that state once [Filter] has been instantiated as well. *)
Definition after_folding : state :=
  mkState [Mul; GT; Projection; Sub; from_pandas]
          [BinopProjectionRule Sub; BinopProjectionRule GT;
           MulFoldRule; BinopProjectionRule Mul]
          false.

Definition after_folding_optimized : state :=
  mkState [Filter; Mul; GT; Projection; Sub; from_pandas]
          [BinopProjectionRule Sub; BinopProjectionRule GT;
           MulFoldRule; BinopProjectionRule Mul; FilterProjectionRule]
          false.

(** C5 as stated fails in two ways.
    Its last part: [X * (4 * Y)] with non-numeric [X] and [Y] is not
    left unchanged when a rule applies inside [X]; here [X] is
    [df + df], which the Add rule rewrites.
    Its second part: run in a fresh process, [folding_example] builds
    [3 * (4 * X)] and [12 * X] for [X = selected_twice], and
    [optimize] returns [12 * selected_after_two_passes] for the first
    and [12 * selected_after_one_pass] for the second: the pass over
    [12 * X] registers the rule of [Filter] and leaves the printed
    form ["12 * df"] unchanged, which ends the loop. *)
Lemma mul_folding_fails_as_stated :
  ~ (exists (py_repr : value -> string)
            (py_getitem : value -> value -> result value),
        forall (X Y : expr) n R st',
          optimize py_repr py_getitem n
                   (VExpr (Op Mul [VExpr X;
                                   VExpr (Op Mul [VInt 4; VExpr Y])]))
                   registered_state = Some (Ok R, st') ->
          R = VExpr (Op Mul [VExpr X; VExpr (Op Mul [VInt 4; VExpr Y])])) /\
  (forall (py_repr : value -> string)
          (py_getitem : value -> value -> result value),
      folding_example initial_state
      = (Ok (VExpr (Op Mul [VInt 3;
                            VExpr (Op Mul [VInt 4; selected_twice])]),
             VExpr (Op Mul [VInt 12; selected_twice])),
         after_folding) /\
      optimize py_repr py_getitem 5
               (VExpr (Op Mul [VInt 3;
                               VExpr (Op Mul [VInt 4; selected_twice])]))
               after_folding
      = Some (Ok (VExpr (Op Mul [VInt 12; selected_after_two_passes])),
              after_folding_optimized) /\
      optimize py_repr py_getitem 5
               (VExpr (Op Mul [VInt 12; selected_twice])) after_folding
      = Some (Ok (VExpr (Op Mul [VInt 12; selected_after_one_pass])),
              after_folding_optimized) /\
      selected_after_two_passes <> selected_after_one_pass).
Proof.
  split.
  - intros [py_repr [py_getitem H]].
    specialize (H (Op Add [sample_df; sample_df])
                  (Op from_pandas [VNone; VInt 1]) 3%nat
                  (VExpr (Op Mul [VExpr (Op Mul [VInt 2; sample_df]);
                                  VExpr (Op Mul [VInt 4; sample_df])]))
                  registered_state).
    assert (Hrun : optimize py_repr py_getitem 3
              (VExpr (Op Mul [VExpr (Op Add [sample_df; sample_df]);
                              VExpr (Op Mul [VInt 4;
                                VExpr (Op from_pandas [VNone; VInt 1])])]))
              registered_state
            = Some (Ok (VExpr (Op Mul [VExpr (Op Mul [VInt 2; sample_df]);
                                       VExpr (Op Mul [VInt 4; sample_df])])),
                    registered_state))
      by (vm_compute; reflexivity).
    specialize (H Hrun). discriminate H.
  - intros py_repr py_getitem.
    repeat split; try (vm_compute; reflexivity). discriminate.
Qed.

(** ** Matching, equationally *)

Fixpoint pmatch_list (ps : list pat) (ops : list value) (s : subst)
  : option subst :=
  match ps, ops with
  | [], [] => Some s
  | p :: ps', o :: ops' =>
      match pmatch p o s with
      | Some s' => pmatch_list ps' ops' s'
      | None => None
      end
  | _, _ => None
  end.

Lemma pmatch_POp k ps v s :
  pmatch (POp k ps) v s =
  match v with
  | VExpr (Op k' ops) =>
      if kind_eqb k k' then pmatch_list ps ops s else None
  | _ => None
  end.
Proof.
  destruct v as [| | | | | | |[k' ops]]; reflexivity.
Qed.

Lemma pmatch_POp_literal k ps v s :
  is_Expr v = false -> pmatch (POp k ps) v s = None.
Proof. destruct v; try discriminate; reflexivity. Qed.

Lemma pmatch_POp_mismatch k ps k' ops s :
  k <> k' -> pmatch (POp k ps) (VExpr (Op k' ops)) s = None.
Proof.
  intros Hne. rewrite pmatch_POp.
  destruct (kind_eqb k k') eqn:E; auto.
  apply kind_eqb_eq in E. contradiction.
Qed.

(** ** Reads with default options *)

(** Operands 4 to 16 of a [ReadParquet] built without those keywords. *)
Definition parquet_defaults : list value :=
  map (bound_operand ReadParquet []) (skipn 3 (_parameters ReadParquet)).

(** [ReadParquet(path, columns=columns, filters=filters)] as a node. *)
Definition read_node (path columns filters : value) : expr :=
  Op ReadParquet ([path; columns; filters] ++ parquet_defaults).

Lemma call_ReadParquet path columns filters st :
  fst (call ReadParquet [path]
            [("columns", columns); ("filters", filters)] st)
  = Ok (read_node path columns filters).
Proof. reflexivity. Qed.

(** The read pattern with wildcards for path, columns and filters
    matches exactly the reads whose other operands are the defaults;
    here: it matches them. *)
Lemma pmatch_read_pat (pa pb pc : pat) path columns filters s :
  pmatch (ReadParquet_pat pa pb pc) (VExpr (read_node path columns filters)) s
  = match pmatch pa path s with
    | Some s1 =>
        match pmatch pb columns s1 with
        | Some s2 => pmatch pc filters s2
        | None => None
        end
    | None => None
    end.
Proof.
  unfold ReadParquet_pat, read_node. rewrite pmatch_POp.
  rewrite kind_eqb_refl. cbn [app pmatch_list].
  destruct (pmatch pa path s) as [s1|]; auto.
  destruct (pmatch pb columns s1) as [s2|]; auto.
  destruct (pmatch pc filters s2) as [s3|]; auto.
Qed.

Arguments read_node : simpl never.
Arguments ReadParquet_pat : simpl never.

(** The shapes of trees the pushdown rules are written for. *)
Definition column_of (read : expr) (d : value) : value :=
  VExpr (Op Projection [VExpr read; d]).

Definition filter_left (op : kind) (frame read : expr) (d e : value)
  : expr :=
  Op Filter [VExpr frame; VExpr (Op op [column_of read d; e])].

Definition filter_right (op : kind) (frame read : expr) (d e : value)
  : expr :=
  Op Filter [VExpr frame; VExpr (Op op [e; column_of read d])].

(** Bindings of a pushdown match. *)
Definition pushdown_bindings (a b c d e : value) : subst :=
  [("e", e); ("d", d); ("c", c); ("b", b); ("a", a)].

Ltac match_steps :=
  repeat first
    [ rewrite kind_eqb_refl
    | rewrite pmatch_read_pat
    | rewrite py_ne_refl
    | rewrite py_eq_refl
    | progress cbn [pmatch pmatch_list lookup String.eqb Ascii.eqb Bool.eqb
                    pattern constraint] ].

Definition pushdown_bindings_right (a b c d e : value) : subst :=
  [("d", d); ("e", e); ("c", c); ("b", b); ("a", a)].

Lemma applies_pushdown_left op a b c b' c' d e :
  applies (ParquetPushdownRule ProjectionLeft op)
          (VExpr (filter_left op (read_node a b c) (read_node a b' c') d e))
  = Some (pushdown_bindings a b c d e).
Proof.
  unfold applies, filter_left, column_of. match_steps. reflexivity.
Qed.

Lemma applies_pushdown_right op a b c b' c' d e :
  applies (ParquetPushdownRule ProjectionRight op)
          (VExpr (filter_right op (read_node a b c) (read_node a b' c') d e))
  = Some (pushdown_bindings_right a b c d e).
Proof.
  unfold applies, filter_right, column_of. match_steps. reflexivity.
Qed.

Lemma kind_eqb_neq a b : a <> b -> kind_eqb a b = false.
Proof.
  intros H. destruct (kind_eqb a b) eqn:E; auto.
  apply kind_eqb_eq in E. contradiction.
Qed.

Lemma pmatch_read_pat_mismatch pa pb pc k ops s :
  k <> ReadParquet ->
  pmatch (ReadParquet_pat pa pb pc) (VExpr (Op k ops)) s = None.
Proof.
  intros H. unfold ReadParquet_pat. apply pmatch_POp_mismatch. congruence.
Qed.

Lemma pmatch_read_pat_literal pa pb pc v s :
  is_Expr v = false -> pmatch (ReadParquet_pat pa pb pc) v s = None.
Proof. intros H. unfold ReadParquet_pat. now apply pmatch_POp_literal. Qed.

(** With a literal on the right, the only rule of the whole catalog
    that applies to [Filter(read, op(read[d], e))] is the
    projection-left pushdown rule for [op]. *)
Lemma applies_pushdown_left_only op a b c b' c' d e r :
  is_Expr e = false ->
  r <> ParquetPushdownRule ProjectionLeft op ->
  applies r (VExpr (filter_left op (read_node a b c) (read_node a b' c') d e))
  = None.
Proof.
  intros He Hne. unfold filter_left.
  destruct r as [| | | | |v op0];
    try (apply applies_head_mismatch; discriminate).
  unfold applies, column_of.
  destruct (kind_eq_dec op0 op) as [->|Hop].
  - destruct v; try contradiction; match_steps.
    + destruct e; try discriminate He; reflexivity.
    + rewrite pmatch_read_pat_mismatch by discriminate. reflexivity.
    + rewrite pmatch_read_pat_literal by exact He. reflexivity.
  - destruct v; match_steps; rewrite (kind_eqb_neq _ _ Hop); reflexivity.
Qed.

Lemma applies_pushdown_right_only op a b c b' c' d e r :
  is_Expr e = false ->
  r <> ParquetPushdownRule ProjectionRight op ->
  applies r (VExpr (filter_right op (read_node a b c) (read_node a b' c') d e))
  = None.
Proof.
  intros He Hne. unfold filter_right.
  destruct r as [| | | | |v op0];
    try (apply applies_head_mismatch; discriminate).
  unfold applies, column_of.
  destruct (kind_eq_dec op0 op) as [->|Hop].
  - destruct v; try contradiction; match_steps.
    + destruct e; try discriminate He; reflexivity.
    + rewrite pmatch_read_pat_literal by exact He. reflexivity.
    + rewrite pmatch_read_pat_mismatch by discriminate. reflexivity.
  - destruct v; match_steps; rewrite (kind_eqb_neq _ _ Hop); reflexivity.
Qed.

(** Items of a [filters] operand that is a list or [None]. *)
Definition filter_items (c : value) : list value :=
  match c with
  | VList l => l
  | _ => []
  end.

(** The read a pushdown produces. *)
Definition pushed_read (op : kind) (a b c d e : value) : expr :=
  read_node a (_list_columns b)
            (VList (filter_items c ++ [VTuple [d; VStr (_operator_repr op); e]])).

Lemma predicate_pushdown_result op a b c d e st :
  c = VNone \/ (exists l, c = VList l) ->
  predicate_pushdown op a b c d e st
  = (Ok (VExpr (pushed_read op a b c d e)),
     register number_of_kinds ReadParquet st).
Proof.
  intros [->|[l ->]].
  - reflexivity.
  - destruct l; reflexivity.
Qed.

(** A read whose path, columns and filters hold no node admits no
    rewrite, whatever the rules. *)
Lemma find_redex_read rules a b c :
  node_free a = true -> node_free b = true -> node_free c = true ->
  find_redex rules (VExpr (read_node a b c)) = None.
Proof.
  intros Ha Hb Hc. unfold read_node. rewrite find_redex_node.
  rewrite first_match_none.
  2:{ intros r _. apply applies_head_mismatch. destruct r; discriminate. }
  apply find_in_operands_none.
  repeat (constructor; [now apply find_redex_node_free|]). constructor.
Qed.

(** ** Printing nodes whose operands are not nodes *)

Lemma value_str_literal py_repr v :
  is_Expr v = false -> exists s, value_str py_repr v = Ok s.
Proof. destruct v; try discriminate; simpl; eauto. Qed.

Lemma expr_str_read py_repr a b c :
  is_Expr a = false -> is_Expr b = false -> is_Expr c = false ->
  exists s, expr_str py_repr (read_node a b c) = Ok s.
Proof.
  intros Ha Hb Hc.
  destruct (value_str_literal py_repr a Ha) as [sa Hsa].
  destruct (value_str_literal py_repr b Hb) as [sb Hsb].
  destruct (value_str_literal py_repr c Hc) as [sc Hsc].
  unfold read_node. cbn [expr_str is_Binop app _parameters].
  destruct (py_ne a _); destruct (py_ne b _); destruct (py_ne c _);
    rewrite ?Hsa, ?Hsb, ?Hsc; vm_compute; eauto.
Qed.

(** ** Predicate pushdown *)

Lemma is_Expr_list_columns b : is_Expr b = false -> is_Expr (_list_columns b) = false.
Proof. destruct b; try discriminate; reflexivity. Qed.

Lemma node_free_list_columns b :
  node_free b = true -> node_free (_list_columns b) = true.
Proof.
  destruct b; auto.
Qed.

Lemma node_free_pushed_filters filters column symbol literal :
  node_free filters = true -> node_free literal = true ->
  node_free (VList (filter_items filters ++
                    [VTuple [VStr column; VStr symbol; literal]])) = true.
Proof.
  unfold node_free. intros Hf Hl. simpl.
  rewrite flat_map_app. simpl. rewrite !app_nil_r.
  destruct (node_kinds literal); [|discriminate].
  rewrite app_nil_r.
  destruct filters; simpl in *; auto.
Qed.

(** C2 (as amended).  Let both reads be built from a path, columns and
    filters only, every other operand at its declared default, with
    the same path; let the frame's filters be a list or [None] and
    let path, columns, filters and the compared value be literals that
    hold no node.  Where the rule for the comparison [op]
    is registered, [optimize] rewrites
    [Filter(frame, op(read[column], literal))] to the single read
    whose filters are the frame's filters (none for [None]) followed
    by [(column, symbol of op, literal)], and rewrites
    [Filter(frame, op(literal, read[column]))] to the same read with
    the symbol of the flipped comparison: [<] and [>] exchanged, [<=]
    and [>=] exchanged, [==] and [!=] kept. *)
Theorem predicate_pushdown_into_read
        (py_repr : value -> string)
        (py_getitem : value -> value -> result value)
        (op : kind) (path columns filters columns' filters' literal : value)
        (column : string) (st : state) (n : nat) :
  node_free path = true -> node_free columns = true ->
  node_free literal = true -> node_free filters = true ->
  filters = VNone \/ (exists l, filters = VList l) ->
  2 <= n ->
  (In (ParquetPushdownRule ProjectionLeft op) (replacement_rules st) ->
   (exists s, expr_str py_repr
                (filter_left op (read_node path columns filters)
                             (read_node path columns' filters')
                             (VStr column) literal) = Ok s) ->
   optimize py_repr py_getitem n
            (VExpr (filter_left op (read_node path columns filters)
                                (read_node path columns' filters')
                                (VStr column) literal)) st
   = Some (Ok (VExpr (read_node path (_list_columns columns)
                        (VList (filter_items filters ++
                                [VTuple [VStr column;
                                         VStr (_operator_repr op);
                                         literal]])))),
           set_defer false
             (register number_of_kinds ReadParquet (set_defer true st))))
  /\
  (In (ParquetPushdownRule ProjectionRight op) (replacement_rules st) ->
   (exists s, expr_str py_repr
                (filter_right op (read_node path columns filters)
                              (read_node path columns' filters')
                              (VStr column) literal) = Ok s) ->
   optimize py_repr py_getitem n
            (VExpr (filter_right op (read_node path columns filters)
                                 (read_node path columns' filters')
                                 (VStr column) literal)) st
   = Some (Ok (VExpr (read_node path (_list_columns columns)
                        (VList (filter_items filters ++
                                [VTuple [VStr column;
                                         VStr (_operator_repr (flip_op op));
                                         literal]])))),
           set_defer false
             (register number_of_kinds ReadParquet (set_defer true st))))
  /\
  (_operator_repr (flip_op LT) = ">" /\ _operator_repr (flip_op LE) = ">=" /\
   _operator_repr (flip_op GT) = "<" /\ _operator_repr (flip_op GE) = "<=" /\
   _operator_repr (flip_op EQ) = "==" /\ _operator_repr (flip_op NE) = "!=").
Proof.
  intros Hpath Hcols Hlit Hfree Hfilters Hn.
  assert (Hnormal : forall o rules,
             find_redex rules
               (VExpr (pushed_read o path columns filters (VStr column)
                                   literal)) = None).
  { intros o rules. apply find_redex_read;
      auto using node_free_list_columns, node_free_pushed_filters. }
  assert (Hprints : forall o, exists s',
             expr_str py_repr
               (pushed_read o path columns filters (VStr column) literal)
             = Ok s').
  { intros o. apply expr_str_read;
      auto using is_Expr_list_columns, node_free_not_Expr. }
  assert (Hlit' : is_Expr literal = false) by now apply node_free_not_Expr.
  split; [|split].
  - intros Hin [s Hs]. destruct (Hprints op) as [s' Hs'].
    eapply (optimize_root_step_to_normal py_repr py_getitem _
              (pushed_read op path columns filters (VStr column) literal)
              (ParquetPushdownRule ProjectionLeft op)
              (pushdown_bindings path columns filters (VStr column) literal));
      eauto.
    + apply first_match_only; auto using applies_pushdown_left.
      intros r _ Hne. now apply applies_pushdown_left_only.
    + cbn [replacement pushdown_bindings arg lookup String.eqb Ascii.eqb
             Bool.eqb mbind ret].
      now rewrite predicate_pushdown_result.
  - intros Hin [s Hs]. destruct (Hprints (flip_op op)) as [s' Hs'].
    eapply (optimize_root_step_to_normal py_repr py_getitem _
              (pushed_read (flip_op op) path columns filters (VStr column)
                           literal)
              (ParquetPushdownRule ProjectionRight op)
              (pushdown_bindings_right path columns filters (VStr column)
                                       literal));
      eauto.
    + apply first_match_only; auto using applies_pushdown_right.
      intros r _ Hne. now apply applies_pushdown_right_only.
    + cbn [replacement pushdown_bindings_right arg lookup String.eqb
             Ascii.eqb Bool.eqb mbind ret].
      now rewrite predicate_pushdown_result.
  - repeat split; reflexivity.
Qed.

Lemma predicate_pushdown_into_read_witness :
  In (ParquetPushdownRule ProjectionLeft LT)
     (replacement_rules registered_state) /\
  In (ParquetPushdownRule ProjectionRight LT)
     (replacement_rules registered_state) /\
  optimize sample_repr sample_getitem 2
    (VExpr (filter_left LT (read_node (VStr "p") VNone VNone)
                        (read_node (VStr "p") VNone VNone)
                        (VStr "x") (VInt 5))) registered_state
  = Some (Ok (VExpr (read_node (VStr "p") VNone
                       (VList [VTuple [VStr "x"; VStr "<"; VInt 5]]))),
          registered_state) /\
  optimize sample_repr sample_getitem 2
    (VExpr (filter_right LT (read_node (VStr "p") VNone VNone)
                         (read_node (VStr "p") VNone VNone)
                         (VStr "x") (VInt 5))) registered_state
  = Some (Ok (VExpr (read_node (VStr "p") VNone
                       (VList [VTuple [VStr "x"; VStr ">"; VInt 5]]))),
          registered_state).
Proof.
  assert (HL : In (ParquetPushdownRule ProjectionLeft LT)
                  (replacement_rules registered_state)).
  { vm_compute. repeat (first [left; reflexivity | right]). }
  assert (HR : In (ParquetPushdownRule ProjectionRight LT)
                  (replacement_rules registered_state)).
  { vm_compute. repeat (first [left; reflexivity | right]). }
  pose proof (predicate_pushdown_into_read sample_repr sample_getitem LT
                (VStr "p") VNone VNone VNone VNone (VInt 5) "x"
                registered_state 2 eq_refl eq_refl eq_refl eq_refl
                (or_introl eq_refl) (le_n 2)) as [Hleft [Hright _]].
  split; [exact HL|]. split; [exact HR|]. split.
  - apply (Hleft HL). eexists. vm_compute. reflexivity.
  - apply (Hright HR). eexists. vm_compute. reflexivity.
Defined.

(** C2 as stated fails for a read built with another option: the
    patterns of the pushdown rules spell out the default of every
    operand but path, columns and filters, so a read with
    [index="i"] matches none of them and the filter stays. *)
Lemma pushdown_needs_default_options :
  ~ (exists (py_repr : value -> string)
            (py_getitem : value -> value -> result value),
        forall (ops : list value) (column : string) (literal : value)
               n R st',
          optimize py_repr py_getitem n
            (VExpr (Op Filter
                      [VExpr (Op ReadParquet ops);
                       VExpr (Op GT [VExpr (Op Projection
                                              [VExpr (Op ReadParquet ops);
                                               VStr column]);
                                     literal])]))
            registered_state = Some (Ok R, st') ->
          exists ops', R = VExpr (Op ReadParquet ops')).
Proof.
  intros [py_repr [py_getitem H]].
  pose (ops := [VStr "p"; VNone; VNone; VNone; VStr "i"; VNone;
                VBool false; VBool false; VBool false; VNone;
                VStr "infer"; VStr "default"; VNone;
                VTuple [VStr ".parq"; VStr ".parquet"; VStr ".pq"];
                VStr "fsspec"; VDict []]).
  pose (T := Op Filter
                [VExpr (Op ReadParquet ops);
                 VExpr (Op GT [VExpr (Op Projection
                                        [VExpr (Op ReadParquet ops);
                                         VStr "x"]);
                               VInt 5])]).
  assert (Hnf : find_redex (replacement_rules registered_state) (VExpr T)
                = None) by (vm_compute; reflexivity).
  assert (Hprint : exists s, expr_str py_repr T = Ok s)
    by (eexists; vm_compute; reflexivity).
  destruct Hprint as [s Hs].
  pose proof (optimize_normal py_repr py_getitem T s registered_state 2
                Hnf Hs (le_S _ _ (le_n 1))) as Hrun.
  destruct (H ops "x" (VInt 5) 2%nat _ _ Hrun) as [ops' Hops'].
  discriminate Hops'.
Qed.

Lemma value_str_VExpr py_repr e :
  value_str py_repr (VExpr e) = expr_str py_repr e.
Proof. destruct e; reflexivity. Qed.

(** ** End-to-end pushdown *)

(** The program [read = ReadParquet(p, columns=None, filters=None);
    read[read["x"] > 5][["y"]]], run from the state at import. *)
Definition pushdown_example (p : string) : M value :=
  read <~ call ReadParquet [VStr p]
            [("columns", VNone); ("filters", VNone)] ;;
  column <~ __getitem__ read (VStr "x") ;;
  predicate <~ __gt__ column (VInt 5) ;;
  filtered <~ __getitem__ read (VExpr predicate) ;;
  projected <~ __getitem__ filtered (VList [VStr "y"]) ;;
  ret (VExpr projected).

(** C1.  For every path [p]: the program builds the tree
    [read[read["x"] > 5][["y"]]], and [optimize] (with any fuel from 4
    on) turns it into the single node
    [ReadParquet(p, columns=["y"], filters=[("x", ">", 5)])]; that tree
    has one node, a [ReadParquet]: no [Filter], no [Projection]. *)
Theorem end_to_end_pushdown
        (py_repr : value -> string)
        (py_getitem : value -> value -> result value)
        (p : string) (n : nat) :
  exists T st,
    pushdown_example p initial_state = (Ok T, st) /\
    optimize py_repr py_getitem (4 + n) T st
    = Some (Ok (VExpr (read_node (VStr p) (VList [VStr "y"])
                         (VList [VTuple [VStr "x"; VStr ">"; VInt 5]]))),
            st) /\
    operand (read_node (VStr p) (VList [VStr "y"])
                       (VList [VTuple [VStr "x"; VStr ">"; VInt 5]]))
            "columns" = Ok (VList [VStr "y"]) /\
    operand (read_node (VStr p) (VList [VStr "y"])
                       (VList [VTuple [VStr "x"; VStr ">"; VInt 5]]))
            "filters" = Ok (VList [VTuple [VStr "x"; VStr ">"; VInt 5]]) /\
    node_kinds (VExpr (read_node (VStr p) (VList [VStr "y"])
                         (VList [VTuple [VStr "x"; VStr ">"; VInt 5]])))
    = [ReadParquet].
Proof.
  eexists. eexists. split; [vm_compute; reflexivity|].
  split; [|repeat split; reflexivity].
  match goal with
  | |- optimize _ _ _ ?T ?st = _ => set (T0 := T); set (stb := st)
  end.
  set (st1 := set_defer true stb).
  set (rules := replacement_rules stb).
  set (read := read_node (VStr p) VNone VNone).
  set (predicate := VExpr (Op GT [column_of read (VStr "x"); VInt 5])).
  set (T1 := VExpr (Op Filter
                       [VExpr (Op Projection [VExpr read; VList [VStr "y"]]);
                        predicate])).
  set (T2 := VExpr (filter_left GT (read_node (VStr p) (VList [VStr "y"]) VNone)
                                read (VStr "x") (VInt 5))).
  set (T3 := VExpr (read_node (VStr p) (VList [VStr "y"])
                      (VList [VTuple [VStr "x"; VStr ">"; VInt 5]]))).
  assert (Hs0 : exists s, value_str py_repr T0 = Ok s)
    by (eexists; vm_compute; reflexivity).
  destruct Hs0 as [s0 Hs0].
  assert (Hs3 : exists s, value_str py_repr T3 = Ok s)
    by (eexists; vm_compute; reflexivity).
  destruct Hs3 as [s3 Hs3].
  assert (Hne : String.eqb s0 "None" = false).
  { apply String.eqb_neq. intros ->.
    unfold T0 in Hs0. rewrite value_str_VExpr in Hs0.
    now apply expr_str_not_None in Hs0. }
  (* first rewrite: the projection moves below the filter *)
  assert (Hf0 : find_redex rules T0
                = Some ([], FilterProjectionRule,
                        [("columns", VList [VStr "y"]);
                         ("condition", predicate); ("df", VExpr read)]))
    by (vm_compute; reflexivity).
  assert (Hr0 : (res <~ replacement py_getitem FilterProjectionRule
                          [("columns", VList [VStr "y"]);
                           ("condition", predicate); ("df", VExpr read)] ;;
                 replace_at T0 [] res) st1 = (Ok T1, st1))
    by (vm_compute; reflexivity).
  (* second rewrite: the projection enters the read *)
  assert (Hf1 : find_redex rules T1
                = Some ([0%nat], ParquetProjectionRule,
                        [("d", VList [VStr "y"]); ("c", VNone);
                         ("b", VNone); ("a", VStr p)]))
    by (vm_compute; reflexivity).
  assert (Hr1 : (res <~ replacement py_getitem ParquetProjectionRule
                          [("d", VList [VStr "y"]); ("c", VNone);
                           ("b", VNone); ("a", VStr p)] ;;
                 replace_at T1 [0%nat] res) st1 = (Ok T2, st1))
    by (vm_compute; reflexivity).
  (* third rewrite: the comparison enters the read *)
  assert (Hin : In (ParquetPushdownRule ProjectionLeft GT) rules).
  { vm_compute. repeat (first [left; reflexivity | right]). }
  assert (Hf2 : find_redex rules T2
                = Some ([], ParquetPushdownRule ProjectionLeft GT,
                        pushdown_bindings (VStr p) (VList [VStr "y"]) VNone
                                          (VStr "x") (VInt 5))).
  { unfold T2, filter_left. rewrite find_redex_node.
    fold (filter_left GT (read_node (VStr p) (VList [VStr "y"]) VNone)
                      read (VStr "x") (VInt 5)).
    rewrite (first_match_only rules _ (ParquetPushdownRule ProjectionLeft GT)
               (pushdown_bindings (VStr p) (VList [VStr "y"]) VNone
                                  (VStr "x") (VInt 5))); auto.
    - apply applies_pushdown_left.
    - intros r _ Hr. now apply applies_pushdown_left_only. }
  assert (Hr2 : (res <~ replacement py_getitem
                          (ParquetPushdownRule ProjectionLeft GT)
                          (pushdown_bindings (VStr p) (VList [VStr "y"])
                                             VNone (VStr "x") (VInt 5)) ;;
                 replace_at T2 [] res) st1 = (Ok T3, st1))
    by (vm_compute; reflexivity).
  assert (Hnf : forall rs, find_redex rs T3 = None).
  { intros rs. now apply find_redex_read. }
  unfold optimize. fold st1.
  change (4 + n) with (S (S (S (S n)))).
  rewrite (optimize_loop_S py_repr py_getitem (S (S (S n))) T0 VNone st1
                           s0 "None") by auto.
  unfold replace_all. change (replacement_rules st1) with rules.
  cbn [replace_loop]. rewrite Hf0, Hr0.
  cbn [replace_loop]. rewrite Hf1, Hr1.
  cbn [replace_loop]. rewrite Hf2, Hr2.
  rewrite replace_loop_normal_input by apply Hnf.
  destruct (optimize_loop_after_pass py_repr py_getitem (S (S (S n))) T3 T0
              s0 st1 (Hnf _) Hs0) as [Hrun _].
  rewrite Hrun by lia. unfold final. rewrite Hs3. reflexivity.
Qed.

(** * Partitions and the task graph *)

(** Python's [tuple(x)] on the builtin values of the model. *)
Definition py_tuple (v : value) : result value :=
  match v with
  | VTuple l | VList l => Ok (VTuple l)
  | VStr s => Ok (VTuple (map (fun c => VStr (String c EmptyString))
                              (list_ascii_of_string s)))
  | VDict d => Ok (VTuple (map fst d))
  | _ => Raise TypeError
  end.

Section Partitions.
(** Divisions that the parquet engine plans for a read
    ([ReadParquet._plan["divisions"]]), outside this code base. *)
Variable plan_divisions : expr -> result value.

(** The [divisions] property with the [_divisions] method of each
    class.  [Blockwise._divisions] takes the first node among the
    operands, asserts that every node operand has the same divisions
    and returns them; [Projection] and [Index] return those of their
    frame unchecked; [from_pandas] has [npartitions + 1] unknown
    boundaries; a class with a [divisions] parameter returns that
    operand. *)
Fixpoint divisions (e : expr) : result value :=
  match e with
  | Op k ops =>
      if mem_string "divisions" (_parameters k) then operand e "divisions"
      else
        d <- match k with
             | Projection | Index =>
                 match ops with
                 | VExpr frame :: _ => divisions frame
                 | _ :: _ => Raise AttributeError
                 | [] => Raise IndexError
                 end
             | from_pandas =>
                 match operand e "npartitions" with
                 | Ok n =>
                     match num_val n with
                     | Some z => Ok (VList (repeat VNone (Z.to_nat (z + 1))))
                     | None => Raise TypeError
                     end
                 | Raise x => Raise x
                 end
             | ReadParquet => plan_divisions e
             | ReadCSV | from_graph => Raise NotImplementedError
             | _ =>
                 (* Blockwise._divisions *)
                 first <-
                   (fix first_divisions (l : list value) : result value :=
                      match l with
                      | [] => Raise IndexError
                      | VExpr a :: _ => divisions a
                      | _ :: rest => first_divisions rest
                      end) ops ;;
                 (fix aligned (l : list value) : result value :=
                    match l with
                    | [] => Ok first
                    | VExpr a :: rest =>
                        d <- divisions a ;;
                        if py_eq d first then aligned rest
                        else Raise AssertionError
                    | _ :: rest => aligned rest
                    end) ops
             end ;;
        py_tuple d
  end.



(** The classes whose divisions come from [Blockwise._divisions]. *)
Definition checks_alignment (k : kind) : bool :=
  match k with
  | AsType | Apply | Filter => true
  | _ => is_Binop k
  end.

(** Divisions of the node operands of a list, in order. *)
Fixpoint operand_divisions (ops : list value) : list (result value) :=
  match ops with
  | [] => []
  | VExpr a :: rest => divisions a :: operand_divisions rest
  | _ :: rest => operand_divisions rest
  end.
End Partitions.

(** ** Alignment of blockwise operands *)

(** [Blockwise._divisions] on the divisions of the node operands. *)
Definition first_of (ds : list (result value)) : result value :=
  match ds with
  | [] => Raise IndexError
  | d :: _ => d
  end.

Fixpoint aligned_with (first : value) (ds : list (result value))
  : result value :=
  match ds with
  | [] => Ok first
  | d :: rest =>
      x <- d ;;
      if py_eq x first then aligned_with first rest
      else Raise AssertionError
  end.

Lemma divisions_checked plan k ops :
  checks_alignment k = true ->
  divisions plan (Op k ops)
  = (first <- first_of (operand_divisions plan ops) ;;
     d <- aligned_with first (operand_divisions plan ops) ;;
     py_tuple d).
Proof.
  intros Hk.
  assert (Hfirst :
    (fix first_divisions (l : list value) : result value :=
       match l with
       | [] => Raise IndexError
       | VExpr a :: _ => divisions plan a
       | _ :: rest => first_divisions rest
       end) ops = first_of (operand_divisions plan ops)).
  { induction ops as [|o os IH]; auto. destruct o; auto. }
  assert (Haligned : forall first,
    (fix aligned (l : list value) : result value :=
       match l with
       | [] => Ok first
       | VExpr a :: rest =>
           d <- divisions plan a ;;
           if py_eq d first then aligned rest else Raise AssertionError
       | _ :: rest => aligned rest
       end) ops = aligned_with first (operand_divisions plan ops)).
  { intros first. clear Hfirst. induction ops as [|o os IH]; auto.
    destruct o; auto. cbn [operand_divisions aligned_with].
    destruct (divisions plan e); simpl; auto.
    destruct (py_eq a first); auto. }
  destruct k; try discriminate Hk; cbn [divisions _parameters mem_string
    existsb String.eqb Ascii.eqb Bool.eqb orb];
    rewrite Hfirst;
    destruct (first_of (operand_divisions plan ops)) as [first|x];
    cbn [bind]; auto; rewrite Haligned; reflexivity.
Qed.

Lemma aligned_with_Ok first rest :
  aligned_with first (map Ok rest)
  = if forallb (fun d => py_eq d first) rest then Ok first
    else Raise AssertionError.
Proof.
  induction rest as [|d rest IH]; simpl; auto.
  destruct (py_eq d first); simpl; auto.
Qed.

(** C4 (as amended).  Alignment is checked when the divisions of a
    node are asked for, not when the node is built.  For a class that
    uses [Blockwise._divisions], if the node operands have divisions
    [first :: rest], the node's divisions are [first] when every one of
    them equals [first], and computing them fails with the assertion
    error (the spec's UnalignedPartitions) otherwise; building the node
    from one operand per declared parameter succeeds in both cases. *)
Theorem blockwise_alignment_checked_on_divisions
        (plan : expr -> result value) (k : kind) (ops : list value)
        (first : value) (rest : list value) (st : state) :
  checks_alignment k = true ->
  operand_divisions plan ops = map Ok (first :: rest) ->
  List.length ops = List.length (_parameters k) ->
  divisions plan (Op k ops)
  = (if forallb (fun d => py_eq d first) rest then py_tuple first
     else Raise AssertionError) /\
  fst (call k ops [] st) = Ok (Op k ops).
Proof.
  intros Hk Hdiv Hlen. split.
  - rewrite divisions_checked by exact Hk. rewrite Hdiv.
    cbn [map first_of bind aligned_with]. rewrite py_eq_refl.
    rewrite aligned_with_Ok.
    destruct (forallb _ rest); reflexivity.
  - pose proof (call_outcome k ops [] st) as Hc. cbv zeta in Hc.
    rewrite Hlen, skipn_all in Hc. cbn [map forallb] in Hc.
    rewrite app_nil_r in Hc. rewrite Hc by (intros p []).
    destruct (is_Binop k) eqn:Hb; auto.
    rewrite Hlen. destruct k; try discriminate Hb; reflexivity.
Qed.

(** Two persisted frames with different divisions. *)
Definition sample_graph (name : string) (boundaries : list Z) : expr :=
  Op from_graph [VDict []; VNone; VTuple (map VInt boundaries); VStr name].

Definition sample_plan (e : expr) : result value :=
  Ok (VTuple [VNone; VNone]).

Lemma blockwise_alignment_checked_on_divisions_witness :
  let a := VExpr (sample_graph "a" [0; 10]%Z) in
  let b := VExpr (sample_graph "b" [0; 5; 10]%Z) in
  checks_alignment Add = true /\
  operand_divisions sample_plan [a; b]
  = map Ok [VTuple [VInt 0; VInt 10]; VTuple [VInt 0; VInt 5; VInt 10]] /\
  divisions sample_plan (Op Add [a; b]) = Raise AssertionError /\
  fst (call Add [a; b] [] initial_state) = Ok (Op Add [a; b]) /\
  divisions sample_plan (Op Add [a; a]) = Ok (VTuple [VInt 0; VInt 10]).
Proof.
  intros a b.
  split; [reflexivity|]. split; [reflexivity|].
  destruct (blockwise_alignment_checked_on_divisions
              sample_plan Add [a; b] (VTuple [VInt 0; VInt 10])
              [VTuple [VInt 0; VInt 5; VInt 10]] initial_state
              eq_refl eq_refl eq_refl) as [Hd Hc].
  split; [exact Hd|]. split; [exact Hc|].
  exact (proj1 (blockwise_alignment_checked_on_divisions
              sample_plan Add [a; a] (VTuple [VInt 0; VInt 10])
              [VTuple [VInt 0; VInt 10]] initial_state
              eq_refl eq_refl eq_refl)).
Defined.

(** C4 as stated fails: a blockwise node over operands with different
    divisions is built without error. *)
Lemma misaligned_node_is_constructed :
  ~ (exists plan : expr -> result value,
        forall (k : kind) (a b : expr) (da db : value) (st : state),
          is_Blockwise k = true ->
          divisions plan a = Ok da -> divisions plan b = Ok db ->
          py_eq da db = false ->
          exists x, fst (call k [VExpr a; VExpr b] [] st) = Raise x).
Proof.
  intros [plan H].
  destruct (H Add (sample_graph "a" [0; 10]%Z)
              (sample_graph "b" [0; 5; 10]%Z)
              (VTuple [VInt 0; VInt 10])
              (VTuple [VInt 0; VInt 5; VInt 10]) initial_state
              eq_refl eq_refl eq_refl eq_refl) as [x Hx].
  discriminate Hx.
Qed.

(** ** Names and the graph traversal *)

(** [funcname(self.operation)] for blockwise classes,
    [funcname(type(self)).lower()] for the others. *)
Definition name_prefix (k : kind) : string :=
  match k with
  | AsType => "astype" | Apply => "apply"
  | Filter | Projection => "getitem"
  | Index => "getattr"
  | Add => "add" | Sub => "sub" | Mul => "mul" | Div => "truediv"
  | LT => "lt" | LE => "le" | GT => "gt" | GE => "ge"
  | EQ => "eq" | NE => "ne"
  | ReadCSV => "readcsv" | from_pandas => "from_pandas"
  | from_graph => "from_graph" | ReadParquet => "readparquet"
  end.

(** The node operands of a node, in operand order. *)
Fixpoint node_operands (ops : list value) : list expr :=
  match ops with
  | [] => []
  | VExpr a :: rest => a :: node_operands rest
  | _ :: rest => node_operands rest
  end.

Definition children (e : expr) : list expr := node_operands (operands e).

(** Number of nodes below and including [e], shared ones counted once
    per reference. *)
Fixpoint nodes (e : expr) : nat :=
  match e with
  | Op _ ops =>
      S ((fix below (l : list value) : nat :=
            match l with
            | [] => 0
            | VExpr a :: rest => nodes a + below rest
            | _ :: rest => below rest
            end) ops)
  end.

Definition weight (stack : list expr) : nat :=
  fold_right (fun e n => nodes e + n) 0 stack.

(** [name in seen] for a set of names. *)
Definition name_mem (name : value) (seen : list value) : bool :=
  existsb (py_eq name) seen.

(** Names added to [seen], newest first: none is equal to an older
    one. *)
Fixpoint distinct_names (seen : list value) : Prop :=
  match seen with
  | [] => True
  | name :: older => name_mem name older = false /\ distinct_names older
  end.

Section Graph.
(** [dask.base.tokenize], a deterministic hash of the operands. *)
Variable tokenize : list value -> string.
(** The tasks of a graph, and the per-partition tasks of a node,
    [expr._layer()]: a dict from keys to tasks. *)
Variable Task : Type.
Variable _layer : expr -> result (list (value * Task)).

(** The [_name] property: the [_name] operand where the class has
    one, else a prefix and the token of the operands. *)
Definition _name (e : expr) : result value :=
  if is_Blockwise (head e) then
    Ok (VStr (name_prefix (head e) ++ "-" ++ tokenize (operands e)))
  else if mem_string "_name" (_parameters (head e)) then operand e "_name"
  else Ok (VStr (name_prefix (head e) ++ "-" ++ tokenize (operands e))).

(** The loop of [__dask_graph__].  The head of [stack] is the top of
    the Python list; every layer is kept with the node it came from.
    [seen] is a set: a name that cannot be hashed raises. *)
Fixpoint traverse (fuel : nat) (stack : list expr) (seen : list value)
         (layers : list (expr * list (value * Task)))
  : option (result (list (expr * list (value * Task)))) :=
  match stack with
  | [] => Some (Ok layers)
  | e :: rest =>
      match fuel with
      | O => None
      | S fuel' =>
          match _name e with
          | Raise x => Some (Raise x)
          | Ok name =>
              if negb (hashable name) then Some (Raise TypeError)
              else if name_mem name seen then traverse fuel' rest seen layers
              else
                match _layer e with
                | Raise x => Some (Raise x)
                | Ok layer =>
                    traverse fuel' (rev (children e) ++ rest)%list
                             (name :: seen) (layers ++ [(e, layer)])%list
                end
          end
      end
  end.

(** [Expr.__dask_graph__]: the layers the loop collected, merged. *)
Definition __dask_graph__ (fuel : nat) (e : expr)
  : option (result (list (value * Task))) :=
  match traverse fuel [e] [] [] with
  | None => None
  | Some (Raise x) => Some (Raise x)
  | Some (Ok layers) => Some (Ok (merge (map snd layers)))
  end.

(** A node whose name is in the set. *)
Definition covered (seen : list value) (x : expr) : Prop :=
  exists name, _name x = Ok name /\ name_mem name seen = true.

(** The layers computed for the name [s]. *)
Definition layers_named (s : string)
           (layers : list (expr * list (value * Task)))
  : list (expr * list (value * Task)) :=
  filter (fun el => match _name (fst el) with
                    | Ok (VStr t) => String.eqb s t
                    | _ => false
                    end) layers.
End Graph.

(** ** Deduplication in the graph traversal *)

Lemma weight_app a b : weight (a ++ b) = weight a + weight b.
Proof. induction a as [|e a IH]; simpl; auto. rewrite IH. lia. Qed.

Lemma weight_rev l : weight (rev l) = weight l.
Proof.
  induction l as [|e l IH]; simpl; auto.
  rewrite weight_app, IH. simpl. lia.
Qed.

Lemma nodes_children e : nodes e = S (weight (children e)).
Proof.
  destruct e as [k ops]. unfold children. simpl. f_equal.
  induction ops as [|o ops IH]; simpl; auto.
  destruct o; simpl; auto.
Qed.

Lemma nodes_positive e : 1 <= nodes e.
Proof. rewrite nodes_children. lia. Qed.

Lemma py_eq_VStr s v : py_eq (VStr s) v = true -> v = VStr s.
Proof.
  destruct v; simpl; try discriminate.
  intros H. apply String.eqb_eq in H. now subst.
Qed.

(** Names that are the string [s]. *)
Definition named (s : string) (name : value) : bool :=
  match name with
  | VStr t => String.eqb s t
  | _ => false
  end.

Lemma named_mem s seen :
  name_mem (VStr s) seen = true -> 1 <= List.length (filter (named s) seen).
Proof.
  unfold name_mem. rewrite existsb_exists. intros [v [Hin Heq]].
  apply py_eq_VStr in Heq. subst v.
  induction seen as [|w seen IH]; [destruct Hin|].
  simpl. destruct Hin as [->|Hin].
  - simpl. rewrite String.eqb_refl. simpl. lia.
  - specialize (IH Hin). destruct (named s w); simpl; lia.
Qed.

Lemma named_distinct s seen :
  distinct_names seen -> List.length (filter (named s) seen) <= 1.
Proof.
  induction seen as [|w seen IH]; simpl; auto.
  intros [Hnew Hold]. specialize (IH Hold).
  destruct (named s w) eqn:Hw; auto.
  destruct w; try discriminate Hw. simpl in Hw.
  apply String.eqb_eq in Hw. subst s0.
  destruct (filter (named s) seen) as [|v l] eqn:Hf; simpl; auto.
  exfalso.
  assert (Hv : In v (filter (named s) seen)) by (rewrite Hf; now left).
  apply filter_In in Hv as [Hin Hv].
  destruct v; try discriminate Hv. simpl in Hv.
  apply String.eqb_eq in Hv. subst s0.
  unfold name_mem in Hnew.
  assert (Hex : existsb (py_eq (VStr s)) seen = true).
  { apply existsb_exists. exists (VStr s). split; auto. apply py_eq_refl. }
  congruence.
Qed.

(** *** Dicts: keys after [dict_set], [dict_update] and [merge] *)

Definition keys {V} (d : list (value * V)) : list value := map fst d.

Lemma name_mem_app name a b :
  name_mem name (a ++ b) = name_mem name a || name_mem name b.
Proof. apply existsb_app. Qed.

Lemma name_mem_rev name l : name_mem name (rev l) = name_mem name l.
Proof.
  induction l as [|x l IH]; simpl; auto.
  rewrite name_mem_app, IH. unfold name_mem. simpl.
  rewrite orb_false_r. apply orb_comm.
Qed.

Lemma keys_dict_set {V} (d : list (value * V)) k v :
  keys (dict_set d k v)
  = if name_mem k (keys d) then keys d else (keys d ++ [k])%list.
Proof.
  induction d as [|[k' v'] rest IH]; simpl; auto.
  unfold name_mem in *. simpl. destruct (py_eq k k'); simpl; auto.
  unfold keys in *. rewrite IH. destruct (existsb _ _); auto.
Qed.

Lemma distinct_dict_set {V} (d : list (value * V)) k v :
  distinct_names (rev (keys d)) ->
  distinct_names (rev (keys (dict_set d k v))).
Proof.
  intros H. rewrite keys_dict_set.
  destruct (name_mem k (keys d)) eqn:E; auto.
  rewrite rev_app_distr. simpl. split; auto. now rewrite name_mem_rev.
Qed.

Lemma key_kept {V} (d : list (value * V)) k v k0 :
  name_mem k0 (keys d) = true ->
  name_mem k0 (keys (dict_set d k v)) = true.
Proof.
  rewrite keys_dict_set. destruct (name_mem k (keys d)); auto.
  rewrite name_mem_app. now intros ->.
Qed.

Lemma key_set {V} (d : list (value * V)) k v :
  name_mem k (keys (dict_set d k v)) = true.
Proof.
  rewrite keys_dict_set. destruct (name_mem k (keys d)) eqn:E; auto.
  rewrite name_mem_app. unfold name_mem at 2. simpl.
  rewrite py_eq_refl. apply orb_true_r.
Qed.

Lemma In_dict_set {V} (d : list (value * V)) k v k' t :
  In (k', t) (dict_set d k v) ->
  In (k', t) d \/ (t = v /\ py_eq k k' = true).
Proof.
  induction d as [|[k1 v1] rest IH]; simpl.
  - intros [H|[]]. inversion H; subst. right. split; auto.
    apply py_eq_refl.
  - destruct (py_eq k k1) eqn:E; simpl.
    + intros [H|H]; [inversion H; subst; right; auto|left; right; auto].
    + intros [H|H]; [left; left; auto|].
      destruct (IH H) as [?|?]; auto.
Qed.

(** What [d.update(new)] holds: the keys stay pairwise different, the
    keys of [d] and of [new] are all there, and every task comes from
    [d] or from [new], under an equal key. *)
Lemma dict_update_spec {V} (new d : list (value * V)) :
  (distinct_names (rev (keys d)) ->
   distinct_names (rev (keys (dict_update d new)))) /\
  (forall k0, name_mem k0 (keys d) = true ->
              name_mem k0 (keys (dict_update d new)) = true) /\
  (forall k t, In (k, t) new ->
               name_mem k (keys (dict_update d new)) = true) /\
  (forall k' t, In (k', t) (dict_update d new) ->
                In (k', t) d \/
                exists k, In (k, t) new /\ py_eq k k' = true).
Proof.
  unfold dict_update. revert d.
  induction new as [|[k v] new IH]; intros d; simpl.
  - repeat split; auto; try (intros ? ? []).
  - destruct (IH (dict_set d k v)) as [H1 [H2 [H3 H4]]].
    repeat split.
    + intros H. apply H1. now apply distinct_dict_set.
    + intros k0 H. apply H2. now apply key_kept.
    + intros k0 t [H|H].
      * inversion H; subst. apply H2, key_set.
      * eapply H3; eauto.
    + intros k' t H. destruct (H4 _ _ H) as [H'|[k0 [Hin He]]].
      * apply In_dict_set in H' as [?|[-> He]]; auto.
        right. exists k. auto.
      * right. exists k0. auto.
Qed.

Lemma merge_into_spec {V} (dicts : list (list (value * V)))
      (acc : list (value * V)) :
  (distinct_names (rev (keys acc)) ->
   distinct_names (rev (keys (fold_left dict_update dicts acc)))) /\
  (forall k0, name_mem k0 (keys acc) = true ->
              name_mem k0 (keys (fold_left dict_update dicts acc)) = true) /\
  (forall d k t, In d dicts -> In (k, t) d ->
                 name_mem k (keys (fold_left dict_update dicts acc)) = true) /\
  (forall k' t, In (k', t) (fold_left dict_update dicts acc) ->
                In (k', t) acc \/
                exists d k, In d dicts /\ In (k, t) d /\ py_eq k k' = true).
Proof.
  revert acc. induction dicts as [|d dicts IH]; intros acc; simpl.
  - repeat split; auto; try (intros ? ? ? []).
  - destruct (IH (dict_update acc d)) as [H1 [H2 [H3 H4]]].
    destruct (dict_update_spec d acc) as [U1 [U2 [U3 U4]]].
    repeat split; auto.
    + intros d0 k t [<-|Hin] Hk; eauto.
    + intros k' t H. destruct (H4 _ _ H) as [H'|[d0 [k [Hd [Hk He]]]]].
      * destruct (U4 _ _ H') as [?|[k [Hk He]]]; auto.
        right. exists d, k. auto.
      * right. exists d0, k. auto.
Qed.

(** The merged graph: its keys are pairwise different, it has every
    key of every dict, and each of its tasks is a task one of the
    dicts holds under an equal key. *)
Lemma merge_spec {V} (dicts : list (list (value * V))) :
  distinct_names (rev (keys (merge dicts))) /\
  (forall d k t, In d dicts -> In (k, t) d ->
                 name_mem k (keys (merge dicts)) = true) /\
  (forall k' t, In (k', t) (merge dicts) ->
                exists d k, In d dicts /\ In (k, t) d /\ py_eq k k' = true).
Proof.
  destruct (merge_into_spec dicts []) as [H1 [_ [H3 H4]]].
  repeat split; auto.
  - apply H1. exact I.
  - intros k' t H. destruct (H4 _ _ H) as [[]|?]; auto.
Qed.

Section GraphProofs.
Variable tokenize : list value -> string.
Variable Task : Type.
Variable _layer : expr -> result (list (value * Task)).

(** The names of the nodes whose layers were computed are the names
    in the set, oldest first. *)
Definition names_recorded (layers : list (expr * list (value * Task)))
           (seen : list value) : Prop :=
  map (fun el => _name tokenize (fst el)) layers = map Ok (rev seen).

(** Every layer kept is what [_layer] returned for its node. *)
Definition layers_computed (layers : list (expr * list (value * Task)))
  : Prop :=
  Forall (fun el => _layer (fst el) = Ok (snd el)) layers.

(** The loop ends: every turn pops a node, and pushes strictly less
    than what it popped. *)
Lemma traverse_ends fuel stack seen layers :
  weight stack <= fuel ->
  exists out, traverse tokenize Task _layer fuel stack seen layers
              = Some out.
Proof.
  revert stack seen layers.
  induction fuel as [|n IH]; intros stack seen layers Hw.
  - destruct stack as [|e rest]; simpl; eauto.
    simpl in Hw. pose proof (nodes_positive e). lia.
  - destruct stack as [|e rest]; simpl; eauto.
    simpl in Hw.
    destruct (_name tokenize e) as [name|x]; eauto.
    destruct (hashable name); simpl; eauto.
    destruct (name_mem name seen).
    + apply IH. pose proof (nodes_positive e). lia.
    + destruct (_layer e) as [layer|x]; eauto.
      apply IH. rewrite weight_app, weight_rev.
      rewrite (nodes_children e) in Hw. lia.
Qed.

Lemma covered_more name seen x :
  covered tokenize seen x -> covered tokenize (name :: seen) x.
Proof.
  intros [nm [Hn Hm]]. exists nm. split; auto.
  unfold name_mem in *. simpl. now rewrite Hm, orb_true_r.
Qed.

(** What a finished traversal guarantees. *)
Lemma traverse_result fuel stack seen layers out :
  traverse tokenize Task _layer fuel stack seen layers = Some (Ok out) ->
  names_recorded layers seen ->
  layers_computed layers ->
  distinct_names seen ->
  exists seen',
    names_recorded out seen' /\
    layers_computed out /\
    distinct_names seen' /\
    (forall x, In x stack \/ covered tokenize seen x ->
               covered tokenize seen' x) /\
    (forall el, In el out ->
                In el layers \/
                forall c, In c (children (fst el)) ->
                          covered tokenize seen' c).
Proof.
  revert stack seen layers.
  induction fuel as [|n IH]; intros stack seen layers Hrun Hnames Hcomp Hdist.
  - destruct stack as [|e rest]; [|discriminate].
    inversion Hrun; subst. exists seen. repeat split; auto.
    intros x [[]|Hc]; auto.
  - destruct stack as [|e rest].
    { inversion Hrun; subst. exists seen. repeat split; auto.
      intros x [[]|Hc]; auto. }
    simpl in Hrun.
    destruct (_name tokenize e) as [name|x] eqn:Hname; [|discriminate].
    destruct (hashable name); simpl in Hrun; [|discriminate].
    destruct (name_mem name seen) eqn:Hmem.
    + destruct (IH _ _ _ Hrun Hnames Hcomp Hdist)
        as [seen' [H1 [H0 [H2 [H3 H4]]]]].
      exists seen'. repeat split; auto.
      intros x [[<-|Hin]|Hc]; apply H3; auto.
      right. exists name. auto.
    + destruct (_layer e) as [layer|x] eqn:Hlayer; [|discriminate].
      assert (Hnames' : names_recorded (layers ++ [(e, layer)])
                                       (name :: seen)).
      { unfold names_recorded in *. rewrite map_app, Hnames. simpl.
        rewrite map_app, Hname. reflexivity. }
      assert (Hcomp' : layers_computed (layers ++ [(e, layer)])).
      { apply Forall_app. split; auto. }
      assert (Hdist' : distinct_names (name :: seen)) by (split; auto).
      destruct (IH _ _ _ Hrun Hnames' Hcomp' Hdist')
        as [seen' [H1 [H0 [H2 [H3 H4]]]]].
      exists seen'. repeat split; auto.
      * intros x [[<-|Hin]|Hc]; apply H3.
        -- right. exists name. split; auto.
           unfold name_mem. simpl. now rewrite py_eq_refl.
        -- left. apply in_or_app. now right.
        -- right. now apply covered_more.
      * intros el Hel. destruct (H4 el Hel) as [Hin|Hch]; auto.
        apply in_app_or in Hin as [Hin|[<-|[]]]; auto.
        right. intros c Hc. apply H3. left.
        apply in_or_app. left. now apply in_rev in Hc.
Qed.
End GraphProofs.

Lemma layers_named_length tokenize Task s
      (layers : list (expr * list (value * Task))) names :
  map (fun el => _name tokenize (fst el)) layers = map Ok names ->
  List.length (layers_named tokenize Task s layers)
  = List.length (filter (named s) names).
Proof.
  revert names. induction layers as [|el layers IH]; intros names Hn.
  - destruct names; [reflexivity|discriminate].
  - destruct names as [|name names]; [discriminate|].
    simpl in Hn. inversion Hn as [[Hel Hrest]].
    unfold layers_named in *. simpl. rewrite Hel.
    specialize (IH names Hrest).
    destruct name; simpl; auto.
    destruct (String.eqb s s0); simpl; auto.
Qed.

(** A node that the traversal reaches: the root, or a node operand of
    a node whose layer was computed. *)
Definition reached {L} (root : expr) (layers : list (expr * L)) (x : expr)
  : Prop :=
  x = root \/ exists el, In el layers /\ In x (children (fst el)).

(** C9.  [__dask_graph__] always ends, within as many turns as the
    tree has node references.  When it returns a graph, that graph is
    the merge of the layers its loop collected, one [_layer()] call
    each, and:
    (1) the nodes whose layers were computed have pairwise different
    names, and every node reached -- the root and every node operand
    of a visited node, however many parents refer to it -- has its
    name among theirs;
    (2) for a reached node named by the string [s], exactly one layer
    was computed for [s], and every key of that layer is a key of the
    graph;
    (3) the keys of the graph are pairwise different, and every task
    of the graph is a task that one of the computed layers holds under
    an equal key. *)
Theorem graph_computes_each_layer_once
        (tokenize : list value -> string) (Task : Type)
        (_layer : expr -> result (list (value * Task))) (root : expr) :
  exists out,
    __dask_graph__ tokenize Task _layer (nodes root) root = Some out /\
    forall graph,
      out = Ok graph ->
      exists layers,
        traverse tokenize Task _layer (nodes root) [root] [] []
        = Some (Ok layers) /\
        graph = merge (map snd layers) /\
        Forall (fun el => _layer (fst el) = Ok (snd el)) layers /\
        (exists names,
            map (fun el => _name tokenize (fst el)) layers = map Ok names /\
            distinct_names (rev names) /\
            forall x, reached root layers x ->
                      exists name, _name tokenize x = Ok name /\
                                   name_mem name names = true) /\
        (forall x s,
            reached root layers x ->
            _name tokenize x = Ok (VStr s) ->
            exists e layer,
              layers_named tokenize Task s layers = [(e, layer)] /\
              forall k t, In (k, t) layer ->
                          name_mem k (keys graph) = true) /\
        distinct_names (rev (keys graph)) /\
        (forall k t, In (k, t) graph ->
                     exists el k0, In el layers /\ In (k0, t) (snd el) /\
                                   py_eq k0 k = true).
Proof.
  destruct (traverse_ends tokenize Task _layer (nodes root) [root] [] [])
    as [out Hout].
  { simpl. lia. }
  unfold __dask_graph__. rewrite Hout.
  destruct out as [layers|x].
  2:{ exists (Raise x). split; [reflexivity|discriminate]. }
  exists (Ok (merge (map snd layers))). split; [reflexivity|].
  intros graph Hg. inversion Hg; subst graph. clear Hg.
  exists layers.
  destruct (traverse_result tokenize Task _layer _ _ _ _ _ Hout)
    as [seen [Hnames [Hcomp [Hdist [Hstack Hlayers]]]]];
    [reflexivity|constructor|exact I|].
  destruct (merge_spec (map snd layers)) as [Hkeys [Hhas Hfrom]].
  assert (Hcov : forall x, reached root layers x ->
                           covered tokenize seen x).
  { intros x [->|[el [Hel Hx]]].
    - apply Hstack. left. now left.
    - destruct (Hlayers el Hel) as [[]|Hch]. now apply Hch. }
  split; [reflexivity|]. split; [reflexivity|]. split; [exact Hcomp|].
  split; [|split; [|split]].
  - exists (rev seen). split; [exact Hnames|]. split.
    + now rewrite rev_involutive.
    + intros x Hx. destruct (Hcov x Hx) as [name [Hn Hm]].
      exists name. split; auto. now rewrite name_mem_rev.
  - intros x s Hx Hs.
    destruct (Hcov x Hx) as [name [Hn Hm]].
    rewrite Hs in Hn. inversion Hn; subst name.
    pose proof (layers_named_length tokenize Task s layers (rev seen) Hnames)
      as Hlen.
    rewrite filter_rev, length_rev in Hlen.
    pose proof (named_mem s seen Hm).
    pose proof (named_distinct s seen Hdist).
    destruct (layers_named tokenize Task s layers) as [|[e layer] [|el more]]
      eqn:Hl; simpl in Hlen; try lia.
    exists e, layer. split; [reflexivity|].
    intros k t Hk. apply (Hhas layer k t); auto.
    apply in_map_iff. exists (e, layer). split; auto.
    assert (Hin : In (e, layer) (layers_named tokenize Task s layers))
      by (rewrite Hl; now left).
    unfold layers_named in Hin. now apply filter_In in Hin.
  - exact Hkeys.
  - intros k t Hk. destruct (Hfrom k t Hk) as [d [k0 [Hd [Hk0 He]]]].
    apply in_map_iff in Hd as [el [<- Hel]]. exists el, k0. auto.
Qed.

(** A tree in which [df] has two parents, with stand-ins for the
    token and the layer: one task per node, the node itself, under
    the key [(name, 0)]. *)
Definition sample_tokenize (ops : list value) : string :=
  String.concat ","
    (map (fun v => match value_str sample_repr v with
                   | Ok s => s
                   | Raise _ => "?"
                   end) ops).

Definition sample_layer (e : expr) : result (list (value * expr)) :=
  name <- _name sample_tokenize e ;;
  Ok [(VTuple [name; VInt 0], e)].

Definition shared_tree : expr :=
  Op Add [VExpr (Op Index [sample_df]);
          VExpr (Op Projection [sample_df; VStr "x"])].

Lemma graph_computes_each_layer_once_witness :
  exists graph,
    __dask_graph__ sample_tokenize expr sample_layer (nodes shared_tree)
                   shared_tree = Some (Ok graph) /\
    map snd graph
    = [shared_tree; Op Projection [sample_df; VStr "x"];
       Op from_pandas [VNone; VInt 1]; Op Index [sample_df]] /\
    name_mem (VTuple [VStr "from_pandas-None,1"; VInt 0]) (keys graph)
    = true /\
    distinct_names (rev (keys graph)).
Proof.
  destruct (graph_computes_each_layer_once sample_tokenize expr sample_layer
              shared_tree) as [out [Hout Hdedup]].
  assert (Hrun : __dask_graph__ sample_tokenize expr sample_layer
                                (nodes shared_tree) shared_tree
                 = Some (Ok [(VTuple [VStr "add-Index(frame=df),df[<object>]";
                                      VInt 0], shared_tree);
                             (VTuple [VStr "getitem-df,x"; VInt 0],
                              Op Projection [sample_df; VStr "x"]);
                             (VTuple [VStr "from_pandas-None,1"; VInt 0],
                              Op from_pandas [VNone; VInt 1]);
                             (VTuple [VStr "getattr-df"; VInt 0],
                              Op Index [sample_df])]))
    by (vm_compute; reflexivity).
  eexists. split; [exact Hrun|]. split; [reflexivity|].
  rewrite Hrun in Hout. inversion Hout as [Hout'].
  destruct (Hdedup _ (eq_sym Hout'))
    as [layers [_ [_ [_ [_ [_ [Hkeys _]]]]]]].
  split; [vm_compute; reflexivity|exact Hkeys].
Defined.

(** * Further properties of the code *)

(** ** Projections pushed through other nodes *)





(** ** The same for a filter and for a read *)







(** ** Pushdown and the path of the reads *)





(** ** Pushdown on a whole read *)


(** ** The [filters] operand a pushdown meets *)



(** ** Partitions of [from_pandas] *)

Lemma length_repeat_None n : List.length (repeat VNone n) = n.
Proof. apply repeat_length. Qed.



(** ** Trees that [optimize] leaves alone *)



(** ** Registration only grows the catalog *)










(** ** Printed forms *)




(** ** Operands by name *)





